(** * SGdelivery: the spreadsheet-to-menu ingestion pipeline

    A shallow embedding of [services/menuService.ts] ([processImageUrl],
    [extractLineId], [fetchMenuFromSheet] and its inner [getValue]) together
    with the data model of [types.ts].

    Modelling conventions.
    - A JavaScript string is a Rocq [string] holding its UTF-8 bytes.  For
      well-formed text, substring search, equality, splitting on an ASCII
      separator and concatenation agree with the UTF-16 operations of the
      source.
    - [toLowerCase] maps the ASCII letters; every keyword of the source is
      ASCII or Thai (which has no letter case).
    - A number is an integer ([Z]); [NaN] is the [None] of [Number].
    - A row object is the list of its own enumerable properties in
      [Object.keys] order.
    - [groupedItems] is the list of its items in key creation order; a read
      of a key it does not own falls through to [Object.prototype].
    - The spreadsheet library is not part of the repository: a sheet is
      given by the two views [sheet_to_json] returns of it, and a fetch by
      its outcome. *)

From Stdlib Require Import String Ascii List ZArith Lia Bool PeanoNat.
From Stdlib Require Import Numbers.DecimalString Sorting.Permutation.
From Stdlib Require Import Sorting.Sorted Numbers.DecimalZ Numbers.DecimalPos.
Import ListNotations.
Open Scope string_scope.

(** ** JavaScript strings *)

Module JsString.

Definition lower_ascii (c : ascii) : ascii :=
  let n := nat_of_ascii c in
  if (65 <=? n)%nat && (n <=? 90)%nat then ascii_of_nat (n + 32) else c.

(** [s.toLowerCase()] *)
Fixpoint toLowerCase (s : string) : string :=
  match s with
  | EmptyString => EmptyString
  | String c r => String (lower_ascii c) (toLowerCase r)
  end.

(** [strip p s] is the rest of [s] behind the prefix [p]. *)
Fixpoint strip (p s : string) : option string :=
  match p, s with
  | EmptyString, _ => Some s
  | String a p', String b s' => if Ascii.eqb a b then strip p' s' else None
  | String _ _, EmptyString => None
  end.

(** [s.startsWith(p)] *)
Definition startsWith (s p : string) : bool :=
  match strip p s with
  | Some _ => true
  | None => false
  end.

(** [hay.includes(needle)] *)
Fixpoint includes (hay needle : string) : bool :=
  startsWith hay needle
  || match hay with
     | EmptyString => false
     | String _ r => includes r needle
     end.

Definition bytes (l : list nat) : string :=
  string_of_list_ascii (map ascii_of_nat l).

Definition rev (s : string) : string :=
  string_of_list_ascii (List.rev (list_ascii_of_string s)).

(** The code points of WhiteSpace and LineTerminator (what [trim] removes
    and what [\s] matches), as UTF-8:
    TAB LF VT FF CR SP, U+00A0, U+1680, U+2000..U+200A, U+2028, U+2029,
    U+202F, U+205F, U+3000, U+FEFF. *)
Definition whiteSpace : list string :=
  map bytes
    [ [9]; [10]; [11]; [12]; [13]; [32]; [194; 160]; [225; 154; 128];
      [226; 128; 128]; [226; 128; 129]; [226; 128; 130]; [226; 128; 131];
      [226; 128; 132]; [226; 128; 133]; [226; 128; 134]; [226; 128; 135];
      [226; 128; 136]; [226; 128; 137]; [226; 128; 138];
      [226; 128; 168]; [226; 128; 169]; [226; 128; 175]; [226; 129; 159];
      [227; 128; 128]; [239; 187; 191] ].

(** The first of [toks] that [s] starts with, removed. *)
Fixpoint strip_any (toks : list string) (s : string) : option string :=
  match toks with
  | [] => None
  | t :: ts => match strip t s with
               | Some r => Some r
               | None => strip_any ts s
               end
  end.

Fixpoint drop_while_tok (toks : list string) (fuel : nat) (s : string) : string :=
  match fuel with
  | O => s
  | S f => match strip_any toks s with
           | Some r => drop_while_tok toks f r
           | None => s
           end
  end.

Definition trimStart (s : string) : string :=
  drop_while_tok whiteSpace (String.length s) s.

Definition trimEnd (s : string) : string :=
  rev (drop_while_tok (map rev whiteSpace) (String.length s) (rev s)).

(** [s.trim()] *)
Definition trim (s : string) : string := trimEnd (trimStart s).

(** [s.replace(/\s/g, '')] *)
Fixpoint remove_ws (fuel : nat) (s : string) : string :=
  match fuel with
  | O => s
  | S f => match strip_any whiteSpace s with
           | Some r => remove_ws f r
           | None => match s with
                     | EmptyString => EmptyString
                     | String c r => String c (remove_ws f r)
                     end
           end
  end.

Definition removeWhiteSpace (s : string) : string :=
  remove_ws (String.length s) s.

(** [s.split(sep)] for a one-character separator: never the empty list. *)
Fixpoint split (sep : ascii) (s : string) : list string :=
  match s with
  | EmptyString => [EmptyString]
  | String c r =>
      let rest := split sep r in
      if Ascii.eqb c sep then EmptyString :: rest
      else match rest with
           | [] => [String c EmptyString]
           | h :: t => String c h :: t
           end
  end.

(** The decimal numeral of an integer: [String(n)], [`${n}`]. *)
Definition ofZ (n : Z) : string := NilZero.string_of_int (Z.to_int n).

Definition is_digit (c : ascii) : bool :=
  let n := nat_of_ascii c in (48 <=? n)%nat && (n <=? 57)%nat.

Fixpoint digits (acc : Z) (s : string) : option Z :=
  match s with
  | EmptyString => Some acc
  | String c r =>
      if is_digit c
      then digits (10 * acc + Z.of_nat (nat_of_ascii c - 48)) r
      else None
  end.

(** [Number(s)] on the integer numerals: white space is trimmed, the empty
    string is 0, an optional sign precedes decimal digits; anything else is
    [NaN]. *)
Definition toNumber (s : string) : option Z :=
  match trim s with
  | EmptyString => Some 0%Z
  | String "-" (String c r) => option_map Z.opp (digits 0 (String c r))
  | String "+" (String c r) => digits 0 (String c r)
  | t => digits 0 t
  end.

End JsString.

Import JsString.

(** ** Cell values *)

(** What a cell of a parsed sheet holds: text, a number, or nothing. *)
Inductive value : Type :=
  | VUndef
  | VStr (s : string)
  | VNum (n : Z).

(** ToBoolean *)
Definition truthy (v : value) : bool :=
  match v with
  | VUndef => false
  | VStr s => negb (String.eqb s "")
  | VNum n => negb (Z.eqb n 0)
  end.

(** [String(v)] *)
Definition String_ (v : value) : string :=
  match v with
  | VUndef => "undefined"
  | VStr s => s
  | VNum n => ofZ n
  end.

(** [Number(v)]; [None] is NaN. *)
Definition Number (v : value) : option Z :=
  match v with
  | VUndef => None
  | VStr s => toNumber s
  | VNum n => Some n
  end.

(** [Number(v) || 0] *)
Definition Number_or_0 (v : value) : Z :=
  match Number v with
  | Some n => n
  | None => 0%Z
  end.

(** [a || b] *)
Definition or_else (a b : value) : value := if truthy a then a else b.

(** ** Rows and column resolution *)

(** A row object of [sheet_to_json]: header name and cell, in key order. *)
Definition Row : Type := list (string * value).

Definition Object_keys (row : Row) : list string := map fst row.

(** [row[k]] *)
Fixpoint get (row : Row) (k : string) : value :=
  match row with
  | [] => VUndef
  | (k', v) :: r => if String.eqb k' k then v else get r k
  end.

(** The callback of the exact search of [getValue]. *)
Definition exactMatch (keys : list string) (k : string) : bool :=
  existsb (fun s => String.eqb (toLowerCase k) (toLowerCase s)) keys.

(** The callback of the partial search of [getValue]. *)
Definition partialMatch (keys exclude : list string) (k : string) : bool :=
  let lowerK := toLowerCase k in
  let matchesKey := existsb (fun s => includes lowerK (toLowerCase s)) keys in
  let isExcluded := existsb (fun e => includes lowerK (toLowerCase e)) exclude in
  matchesKey && negb isExcluded.

(** A found key is tested with [if (exact)] and [partial ? .. : ..]: the
    empty string counts as not found. *)
Definition found (r : option string) : option string :=
  match r with
  | Some EmptyString => None
  | other => other
  end.

Definition getValue (row : Row) (keys exclude : list string) : value :=
  let rowKeys := Object_keys row in
  match found (find (exactMatch keys) rowKeys) with
  | Some exact => get row exact
  | None =>
      match found (find (partialMatch keys exclude) rowKeys) with
      | Some partial => get row partial
      | None => VUndef
      end
  end.


(** ** Helpers of the service *)

(** The code points that [.] of a regular expression does not match:
    LF, CR, U+2028, U+2029. *)
Definition lineTerminator : list string :=
  map bytes [ [10]; [13]; [226; 128; 168]; [226; 128; 169] ].

Definition startsWithAny (toks : list string) (s : string) : bool :=
  match strip_any toks s with
  | Some _ => true
  | None => false
  end.

(** [(.*?)] followed by the one-character delimiter [delim], or, when
    [atEnd], by the end of the input: the shortest run of characters other
    than line terminators up to the first such place. *)
Fixpoint lazyDots (delim : ascii) (atEnd : bool) (s : string) : option string :=
  match s with
  | EmptyString => if atEnd then Some EmptyString else None
  | String c r =>
      if Ascii.eqb c delim then Some EmptyString
      else if startsWithAny lineTerminator s then None
      else option_map (String c) (lazyDots delim atEnd r)
  end.

(** The capture groups of a match of [/\/d\/(.*?)\/|id=(.*?)(&|$)/]. *)
Inductive idMatch : Type :=
  | PathStyle (g1 : string)
  | QueryStyle (g2 : string).

Definition bind_opt {A B} (o : option A) (f : A -> option B) : option B :=
  match o with
  | Some a => f a
  | None => None
  end.

(** [cleanUrl.match(..)]: the leftmost position where one of the two
    alternatives matches, the first alternative tried first. *)
Fixpoint matchDriveId (s : string) : option idMatch :=
  match bind_opt (strip "/d/" s) (lazyDots "/" false) with
  | Some g => Some (PathStyle g)
  | None =>
      match bind_opt (strip "id=" s) (lazyDots "&" true) with
      | Some g => Some (QueryStyle g)
      | None =>
          match s with
          | EmptyString => None
          | String _ r => matchDriveId r
          end
      end
  end.

(** [idMatch[1] || idMatch[2]], as the template literal prints it. *)
Definition capturedId (m : idMatch) : string :=
  match m with
  | PathStyle EmptyString => "undefined"
  | PathStyle g => g
  | QueryStyle g => g
  end.

Definition processImageUrl (url : string) : string :=
  if String.eqb url "" then ""
  else
    let cleanUrl := trim url in
    if includes cleanUrl "drive.google.com" then
      match matchDriveId cleanUrl with
      | Some m => "https://drive.google.com/uc?export=view&id=" ++ capturedId m
      | None => cleanUrl
      end
    else cleanUrl.

Definition extractLineId (val : value) : string :=
  if negb (truthy val) then ""
  else
    let str := trim (String_ val) in
    if includes str "line.me" then
      let parts := split "/" str in
      hd "" (split "?" (last parts ""))
    else str.

(** ** Data model ([types.ts]) *)

Module MenuChoice.
Record t : Type := mk { name : string; priceModifier : Z }.
End MenuChoice.

Module MenuOption.
Record t : Type := mk { name : string; choices : list MenuChoice.t }.
End MenuOption.

Module MenuItem.
Record t : Type := mk {
  id : string;
  category : string;
  name : string;
  price : Z;
  description : option string;
  image : string;
  isSpicy : bool;
  options : list MenuOption.t
}.
End MenuItem.

Module AppConfig.
Record t : Type := mk {
  logoUrl : option string;
  qrCodeUrl : option string;
  lineOaId : option string
}.
Definition empty : t := mk None None None.
End AppConfig.

Module MenuData.
Record t : Type := mk { items : list MenuItem.t; config : AppConfig.t }.
End MenuData.

(** ** Option merging *)

(** [if (!g.choices.some(c => c.name === nc.name)) g.choices.push(nc)] *)
Definition pushChoice (nc : MenuChoice.t) (g : MenuOption.t) : MenuOption.t :=
  if existsb (fun c => String.eqb (MenuChoice.name c) (MenuChoice.name nc))
       (MenuOption.choices g)
  then g
  else MenuOption.mk (MenuOption.name g) (MenuOption.choices g ++ [nc]).

(** In-place mutation of the group that [find] returned: the first element
    satisfying the predicate. *)
Fixpoint updateFirst {A} (p : A -> bool) (f : A -> A) (l : list A) : list A :=
  match l with
  | [] => []
  | x :: r => if p x then f x :: r else x :: updateFirst p f r
  end.

(** Case 1 of the option parsing, on a group name and a choice. *)
Definition mergeRowBased (groupName : string) (c : MenuChoice.t)
    (opts : list MenuOption.t) : list MenuOption.t :=
  let isGroup := fun o => String.eqb (MenuOption.name o) groupName in
  match find isGroup opts with
  | Some _ => updateFirst isGroup (pushChoice c) opts
  | None => opts ++ [pushChoice c (MenuOption.mk groupName [])]
  end.

(** [o.name === optName] where [optName] is a raw cell. *)
Definition strictEq (s : string) (v : value) : bool :=
  match v with
  | VStr t => String.eqb s t
  | _ => false
  end.

(** Case 2 of the option parsing, on a header cell and the choice names. *)
Definition mergeCommaSeparated (optName : value) (newChoicesStr : list string)
    (opts : list MenuOption.t) : list MenuOption.t :=
  let isOpt := fun o => strictEq (MenuOption.name o) optName in
  let newChoiceObjs := map (fun c => MenuChoice.mk c 0) newChoicesStr in
  match find isOpt opts with
  | Some _ =>
      updateFirst isOpt
        (fun g => fold_left (fun g nc => pushChoice nc g) newChoiceObjs g) opts
  | None => opts ++ [MenuOption.mk (String_ optName) newChoiceObjs]
  end.

Definition nonEmpty (s : string) : bool := negb (String.eqb s "").

(** What case 1 reads from a row: group name, choice name and modifier,
    when both names are present and non-empty after trimming. *)
Definition rowBased (row : Row) : option (string * MenuChoice.t) :=
  let optGroupKey := getValue row
    ["option_group_name"; "group_name"; "option_group"; "หัวข้อตัวเลือก";
     "กลุ่มตัวเลือก"] [] in
  let optChoiceKey := getValue row
    ["option_name"; "choice_name"; "sub_option"; "ตัวเลือก"; "ชื่อตัวเลือก"] [] in
  let optPriceModKey := getValue row
    ["option_price_modifier"; "price_modifier"; "add_price"; "ราคาเพิ่ม"; "บวก";
     "modifier"] [] in
  let priceMod := Number_or_0 optPriceModKey in
  if truthy optGroupKey && truthy optChoiceKey then
    let groupName := trim (String_ optGroupKey) in
    let choiceName := trim (String_ optChoiceKey) in
    if nonEmpty groupName && nonEmpty choiceName
    then Some (groupName, MenuChoice.mk choiceName priceMod)
    else None
  else None.

(** What case 2 reads from a row: the header cell and the non-empty trimmed
    tokens of the comma-separated list, when there is at least one. *)
Definition commaSeparated (row : Row) : option (value * list string) :=
  let optName := getValue row ["option_header"; "หัวข้อ"] ["group"] in
  let optChoices := getValue row ["option_choices"; "choices"; "selections"]
                      ["group"; "name"] in
  if truthy optName && truthy optChoices then
    let newChoicesStr :=
      filter nonEmpty (map trim (split "," (String_ optChoices))) in
    match newChoicesStr with
    | [] => None
    | _ :: _ => Some (optName, newChoicesStr)
    end
  else None.

(** The option parsing of one row, applied to [item.options]: case 2 runs
    only when case 1 did not add ([optionAdded]). *)
Definition mergeOptions (row : Row) (opts : list MenuOption.t)
    : list MenuOption.t :=
  match rowBased row with
  | Some (groupName, c) => mergeRowBased groupName c opts
  | None =>
      match commaSeparated row with
      | Some (optName, newChoicesStr) =>
          mergeCommaSeparated optName newChoicesStr opts
      | None => opts
      end
  end.

(** ** The row fold *)

(** [groupedItems]: the items in the order their keys were added; the key
    of an item is its name. *)
Definition GroupedItems : Type := list MenuItem.t.

(** The property names every object literal inherits from
    [Object.prototype]; each reads as a truthy value. *)
Definition Object_prototype : list string :=
  [ "constructor"; "__defineGetter__"; "__defineSetter__"; "hasOwnProperty";
    "__lookupGetter__"; "__lookupSetter__"; "isPrototypeOf";
    "propertyIsEnumerable"; "toString"; "valueOf"; "__proto__";
    "toLocaleString" ].

(** What [groupedItems[name]] reads. *)
Inductive slot : Type :=
  | Own (item : MenuItem.t)
  | Inherited
  | Missing.

Definition hasName (name : string) (it : MenuItem.t) : bool :=
  String.eqb (MenuItem.name it) name.

Definition lookup (groupedItems : GroupedItems) (name : string) : slot :=
  match find (hasName name) groupedItems with
  | Some it => Own it
  | None =>
      if existsb (String.eqb name) Object_prototype then Inherited
      else Missing
  end.

Definition setOptions (it : MenuItem.t) (opts : list MenuOption.t) : MenuItem.t :=
  MenuItem.mk (MenuItem.id it) (MenuItem.category it) (MenuItem.name it)
    (MenuItem.price it) (MenuItem.description it) (MenuItem.image it)
    (MenuItem.isSpicy it) opts.

Record Acc : Type := mkAcc {
  groupedItems : GroupedItems;
  config : AppConfig.t
}.

Definition emptyAcc : Acc := mkAcc [] AppConfig.empty.

(** The fields every row resolves first. *)
Record Resolved : Type := mkResolved {
  category : string;
  rawName : value;
  name : string;
  processedImg : string
}.

Definition categoryKeys : list string :=
  ["category"; "type"; "หมวด"; "ประเภท"; "group"].

Definition nameKeys : list string :=
  ["name"; "menu"; "item"; "food"; "ชื่อ"; "รายการ"; "เมนู"].

Definition nameExclude : list string :=
  ["option"; "choice"; "ตัวเลือก"; "ราคา"; "price"; "img"].

Definition imageKeys : list string :=
  ["image"; "img"; "url"; "photo"; "รูป"; "pic"; "link"].

(** The columns searched for a Line id when the image field gave none. *)
Definition lineIdKeys : list string :=
  ["price"; "cost"; "ราคา"; "value"; "ค่า"; "detail"; "description"; "option"].

Definition resolve (row : Row) : Resolved :=
  let category :=
    String_ (or_else (getValue row categoryKeys []) (VStr "General")) in
  let rawName := getValue row nameKeys nameExclude in
  let name := trim (String_ (or_else rawName (VStr ""))) in
  let rawImg := getValue row imageKeys [] in
  let processedImg :=
    if truthy rawImg then processImageUrl (String_ rawImg) else "" in
  mkResolved category rawName name processedImg.

Definition isConfigRow (r : Resolved) : bool :=
  existsb (fun k => includes (toLowerCase (category r)) k)
    ["setting"; "config"; "system"; "ตั้งค่า"].

(** The configuration key a row is filed under, by its name. *)
Inductive configKey : Type := Logo | Qr | Line.

Definition configKeyOf (r : Resolved) : option configKey :=
  let lname := toLowerCase (name r) in
  if includes lname "logo" then Some Logo
  else if includes lname "qr" || includes lname "payment" then Some Qr
  else if includes lname "line" then Some Line
  else None.

(** [processedImg || getValue([..]) || ''] *)
Definition possibleId (row : Row) (r : Resolved) : value :=
  or_else
    (or_else (VStr (processedImg r)) (getValue row lineIdKeys []))
    (VStr "").

(** The configuration extraction of a setting row. *)
Definition extractConfig (row : Row) (r : Resolved) (c : AppConfig.t)
    : AppConfig.t :=
  match configKeyOf r with
  | Some Logo =>
      AppConfig.mk (Some (processedImg r)) (AppConfig.qrCodeUrl c)
        (AppConfig.lineOaId c)
  | Some Qr =>
      AppConfig.mk (AppConfig.logoUrl c) (Some (processedImg r))
        (AppConfig.lineOaId c)
  | Some Line =>
      let possibleId := possibleId row r in
      if truthy possibleId
      then AppConfig.mk (AppConfig.logoUrl c) (AppConfig.qrCodeUrl c)
             (Some (extractLineId possibleId))
      else c
  | None => c
  end.

Definition spicy (name : string) (desc : value) : bool :=
  includes name "Spicy"
  || (truthy desc && includes (String_ desc) "พริก")
  || includes name "ต้มยำ"
  || includes name "เผ็ด".

(** The object literal assigned to [groupedItems[name]]. *)
Definition newItem (row : Row) (r : Resolved) (groupedItems : GroupedItems)
    : MenuItem.t :=
  let price := getValue row ["price"; "cost"; "ราคา"; "บาท"] ["option"] in
  let desc := getValue row
    ["description"; "detail"; "รายละเอียด"; "ส่วนประกอบ"; "คำอธิบาย"] [] in
  let finalImg :=
    if nonEmpty (processedImg r) then processedImg r
    else "https://picsum.photos/seed/" ++ removeWhiteSpace (name r)
         ++ "/300/200" in
  MenuItem.mk
    ("item-" ++ ofZ (Z.of_nat (List.length groupedItems)))
    (category r)
    (name r)
    (Number_or_0 price)
    (if truthy desc then Some (String_ desc) else None)
    finalImg
    (spicy (name r) desc)
    [].

(** The callback of [rawData.forEach]. *)
Definition processRow (acc : Acc) (row : Row) : Acc :=
  let r := resolve row in
  if isConfigRow r then
    mkAcc (groupedItems acc) (extractConfig row r (config acc))
  else if negb (truthy (rawName r)) then acc
  else
    match lookup (groupedItems acc) (name r) with
    | Own _ =>
        mkAcc
          (updateFirst (hasName (name r))
             (fun it => setOptions it (mergeOptions row (MenuItem.options it)))
             (groupedItems acc))
          (config acc)
    | Missing =>
        let it := newItem row r (groupedItems acc) in
        mkAcc (groupedItems acc ++ [setOptions it (mergeOptions row [])])%list
          (config acc)
    | Inherited =>
        (* [item] is a member of [Object.prototype]: [item.options] is
           undefined and every [item.options?.] call is skipped *)
        acc
    end.

(** ** [Object.values] *)

(** The array index a property key denotes, if any: the canonical numeral
    of an integer from 0 to 2^32 - 2.  Such keys are enumerated first, in
    ascending order, before the other keys in creation order. *)
Definition arrayIndex (key : string) : option Z :=
  match digits 0 key with
  | Some n =>
      if String.eqb key (ofZ n) && (n <=? 4294967294)%Z then Some n else None
  | None => None
  end.

Fixpoint insertByIndex (x : Z * MenuItem.t) (l : list (Z * MenuItem.t))
    : list (Z * MenuItem.t) :=
  match l with
  | [] => [x]
  | y :: r => if (fst x <=? fst y)%Z then x :: l else y :: insertByIndex x r
  end.

Definition indexKeyed (groupedItems : GroupedItems) : list (Z * MenuItem.t) :=
  flat_map
    (fun it => match arrayIndex (MenuItem.name it) with
               | Some n => [(n, it)]
               | None => []
               end) groupedItems.

Definition stringKeyed (groupedItems : GroupedItems) : list MenuItem.t :=
  filter
    (fun it => match arrayIndex (MenuItem.name it) with
               | Some _ => false
               | None => true
               end) groupedItems.

Definition Object_values (groupedItems : GroupedItems) : list MenuItem.t :=
  (map snd (fold_right insertByIndex [] (indexKeyed groupedItems))
   ++ stringKeyed groupedItems)%list.

(** ** Header detection *)

Definition hexDigit (n : nat) : ascii :=
  if (n <? 10)%nat then ascii_of_nat (48 + n) else ascii_of_nat (87 + n).

(** The escape of one character inside a JSON string literal. *)
Definition jsonChar (c : ascii) : string :=
  let n := nat_of_ascii c in
  if (n =? 34)%nat then bytes [92; 34]
  else if (n =? 92)%nat then bytes [92; 92]
  else if (n =? 8)%nat then bytes [92; 98]
  else if (n =? 9)%nat then bytes [92; 116]
  else if (n =? 10)%nat then bytes [92; 110]
  else if (n =? 12)%nat then bytes [92; 102]
  else if (n =? 13)%nat then bytes [92; 114]
  else if (n <? 32)%nat then
    bytes [92; 117; 48; 48]
    ++ String (hexDigit (n / 16)) (String (hexDigit (n mod 16)) EmptyString)
  else String c EmptyString.

Fixpoint jsonChars (s : string) : string :=
  match s with
  | EmptyString => EmptyString
  | String c r => jsonChar c ++ jsonChars r
  end.

Definition jsonValue (v : value) : string :=
  match v with
  | VUndef => "null"
  | VStr s => bytes [34] ++ jsonChars s ++ bytes [34]
  | VNum n => ofZ n
  end.

(** [JSON.stringify(cells)] of an array of cells. *)
Definition JSON_stringify (cells : list value) : string :=
  "[" ++ String.concat "," (map jsonValue cells) ++ "]".

Definition searchKeywords : list string :=
  [ "name"; "menu"; "item"; "ชื่อ"; "รายการ"; "category"; "หมวด"; "price";
    "ราคา" ].

(** [searchKeywords.filter(k => rowStr.includes(k)).length] for
    [rowStr = JSON.stringify(cells).toLowerCase()]. *)
Definition matchCount (cells : list value) : nat :=
  let rowStr := toLowerCase (JSON_stringify cells) in
  List.length (filter (fun k => includes rowStr k) searchKeywords).

(** The scanning loop, [n] iterations from index [i] on; [headerRowIndex]
    keeps its initial 0 when the loop ends without a [break]. *)
Fixpoint scanRows (rows : list (list value)) (n i : nat) : nat :=
  match n with
  | O => 0
  | S n' =>
      if (2 <=? matchCount (nth i rows []))%nat then i
      else scanRows rows n' (S i)
  end.

Definition headerRowIndex (rows : list (list value)) : nat :=
  scanRows rows (Nat.min (List.length rows) 10) 0.

(** ** Sheets, workbook and the pipeline *)

(** A worksheet as the service reads it through the spreadsheet library:
    [aoa] is [sheet_to_json(sheet, { header: 1 })], the rows as arrays of
    cells; [objects h] is [sheet_to_json(sheet, { range: h })], the row
    objects below header row [h]. *)
Record Sheet : Type := mkSheet {
  aoa : list (list value);
  objects : nat -> list Row
}.

(** The sheets in [workbook.SheetNames] order. *)
Definition Workbook : Type := list Sheet.

(** The row objects a sheet feeds to the fold; none for an empty sheet. *)
Definition rawData (sheet : Sheet) : list Row :=
  match aoa sheet with
  | [] => []
  | _ :: _ => objects sheet (headerRowIndex (aoa sheet))
  end.

(** The callback of [workbook.SheetNames.forEach]. *)
Definition processSheet (acc : Acc) (sheet : Sheet) : Acc :=
  match aoa sheet with
  | [] => acc
  | _ :: _ => fold_left processRow (objects sheet (headerRowIndex (aoa sheet))) acc
  end.

Definition processWorkbook (workbook : Workbook) : Acc :=
  fold_left processSheet workbook emptyAcc.

Definition menuData (acc : Acc) : MenuData.t :=
  MenuData.mk (Object_values (groupedItems acc)) (config acc).

(** What the [try] block can throw. *)
Inductive Error : Type :=
  | PERMISSION_DENIED
  | Failed_to_fetch_menu_data
  | Rejected_by_callee.

Inductive completion (A : Type) : Type :=
  | Return (a : A)
  | Throw (e : Error).
Arguments Return {A} a.
Arguments Throw {A} e.

(** The response of [fetch]; [workbook] is [None] when reading or decoding
    the body throws. *)
Record Response : Type := mkResponse {
  content_type : option string;
  ok : bool;
  workbook : option Workbook
}.

(** The [try] block, on the outcome of [fetch] ([None]: the request was
    rejected). *)
Definition tryBlock (fetched : option Response) : completion MenuData.t :=
  match fetched with
  | None => Throw Rejected_by_callee
  | Some response =>
      if match content_type response with
         | Some contentType => nonEmpty contentType
                               && includes contentType "text/html"
         | None => false
         end
      then Throw PERMISSION_DENIED
      else if negb (ok response) then Throw Failed_to_fetch_menu_data
      else match workbook response with
           | None => Throw Rejected_by_callee
           | Some wb => Return (menuData (processWorkbook wb))
           end
  end.

Definition emptyResult : MenuData.t := MenuData.mk [] AppConfig.empty.

(** How the promise of an [async] function settles. *)
Inductive settled (A : Type) : Type :=
  | Fulfilled (a : A)
  | Rejected (e : Error).
Arguments Fulfilled {A} a.
Arguments Rejected {A} e.

Definition fetchMenuFromSheet (fetched : option Response) : settled MenuData.t :=
  match tryBlock fetched with
  | Return data => Fulfilled data
  | Throw _ => Fulfilled emptyResult
  end.

(** ** The storefront ([App.tsx]) *)

(** A cart line: the fields of the menu item it was made from, with the
    quantity, the note and the selected options. *)
Module CartItem.
Record t : Type := mk {
  item : MenuItem.t;
  quantity : Z;
  note : option string;
  selectedOptions : option (list (string * string))
}.
End CartItem.

Definition Cart : Type := list CartItem.t.

Definition DEFAULT_QR : string :=
  "https://api.qrserver.com/v1/create-qr-code/?size=250x250&data=PromptPay-SeoulGood-Payment&color=000000&bgcolor=ffffff".

(** [localStorage]: [None] when reading it throws, else what [getItem]
    gives for each key. *)
Definition Storage : Type := option (string -> option string).

Definition getSafeStorage (storage : Storage) (key : string) : option string :=
  match storage with
  | None => None
  | Some getItem =>
      match getItem key with
      | None => None
      | Some item =>
          if String.eqb item "null" || String.eqb item "undefined"
             || String.eqb item ""
          then None
          else Some item
      end
  end.

(** [localQr || sheetConfig.qrCodeUrl || DEFAULT_QR] *)
Definition finalQrUrl (localQr : option string) (sheetConfig : AppConfig.t)
    : string :=
  match localQr with
  | Some s => if nonEmpty s then s
              else match AppConfig.qrCodeUrl sheetConfig with
                   | Some u => if nonEmpty u then u else DEFAULT_QR
                   | None => DEFAULT_QR
                   end
  | None => match AppConfig.qrCodeUrl sheetConfig with
            | Some u => if nonEmpty u then u else DEFAULT_QR
            | None => DEFAULT_QR
            end
  end.

(** [Array.from(new Set(l))]: the first occurrence of each text, in
    order. *)
Definition Set_of (l : list string) : list string :=
  fold_left
    (fun seen x => if existsb (String.eqb x) seen then seen else seen ++ [x])%list
    l [].

Definition categories (menu : list MenuItem.t) : list string :=
  "All" :: filter nonEmpty (Set_of (map MenuItem.category menu)).

Definition filteredMenu (menu : list MenuItem.t) (selectedCategory : string)
    : list MenuItem.t :=
  if String.eqb selectedCategory "All" then menu
  else filter (fun item => String.eqb (MenuItem.category item) selectedCategory)
         menu.

(** One step of the [forEach] of [getPriceWithOptions]. *)
Definition addModifier (item : MenuItem.t) (finalPrice : Z)
    (entry : string * string) : Z :=
  let (optName, choiceName) := entry in
  match find (fun o => String.eqb (MenuOption.name o) optName)
          (MenuItem.options item) with
  | Some option =>
      match find (fun c => String.eqb (MenuChoice.name c) choiceName)
              (MenuOption.choices option) with
      | Some choice => (finalPrice + MenuChoice.priceModifier choice)%Z
      | None => finalPrice
      end
  | None => finalPrice
  end.

(** The unit price with the selected options, over the entries of
    [selectedOpts]; [item.options] is an array in every item the service
    builds, so the early return for a missing one is never taken. *)
Definition getPriceWithOptions (item : MenuItem.t)
    (selectedOpts : list (string * string)) : Z :=
  fold_left (addModifier item) selectedOpts (MenuItem.price item).

(** [JSON.stringify] of a record of texts. *)
Definition JSON_stringify_record (entries : list (string * string)) : string :=
  "{"
  ++ String.concat ","
       (map (fun e => jsonValue (VStr (fst e)) ++ ":" ++ jsonValue (VStr (snd e)))
          entries)
  ++ "}".

Definition setPrice (it : MenuItem.t) (price : Z) : MenuItem.t :=
  MenuItem.mk (MenuItem.id it) (MenuItem.category it) (MenuItem.name it)
    price (MenuItem.description it) (MenuItem.image it)
    (MenuItem.isSpicy it) (MenuItem.options it).

(** The test of the [findIndex] of [confirmAddToCart]. *)
Definition sameLine (selectedItem : MenuItem.t) (tempNote optionsKey : string)
    (i : CartItem.t) : bool :=
  String.eqb (MenuItem.id (CartItem.item i)) (MenuItem.id selectedItem)
  && match CartItem.note i with
     | Some n => String.eqb n tempNote
     | None => false
     end
  && match CartItem.selectedOptions i with
     | Some opts => String.eqb (JSON_stringify_record opts) optionsKey
     | None => false
     end.

(** The state updater of [confirmAddToCart], on the modal state and the
    previous cart; without a selected item nothing is updated. *)
Definition confirmAddToCart (selectedItem : option MenuItem.t)
    (tempQuantity : Z) (tempNote : string)
    (tempSelectedOptions : list (string * string)) (prev : Cart) : Cart :=
  match selectedItem with
  | None => prev
  | Some selectedItem =>
      let optionsKey := JSON_stringify_record tempSelectedOptions in
      let finalUnitPrice := getPriceWithOptions selectedItem tempSelectedOptions in
      match find (sameLine selectedItem tempNote optionsKey) prev with
      | Some _ =>
          updateFirst (sameLine selectedItem tempNote optionsKey)
            (fun i =>
               CartItem.mk (setPrice (CartItem.item i) finalUnitPrice)
                 (CartItem.quantity i + tempQuantity)
                 (CartItem.note i) (CartItem.selectedOptions i))
            prev
      | None =>
          (prev
           ++ [CartItem.mk (setPrice selectedItem finalUnitPrice) tempQuantity
                 (Some tempNote) (Some tempSelectedOptions)])%list
      end
  end.

(** [l.filter((_, i) => p(i))], counting from [i]. *)
Fixpoint filterIndex {A} (p : nat -> bool) (i : nat) (l : list A) : list A :=
  match l with
  | [] => []
  | x :: r => if p i then x :: filterIndex p (S i) r else filterIndex p (S i) r
  end.

(** [l.map((x, i) => f(x, i))], counting from [i]. *)
Fixpoint mapIndex {A B} (f : A -> nat -> B) (i : nat) (l : list A) : list B :=
  match l with
  | [] => []
  | x :: r => f x i :: mapIndex f (S i) r
  end.

Definition removeFromCart (index : nat) (prev : Cart) : Cart :=
  filterIndex (fun i => negb (Nat.eqb i index)) 0 prev.

Definition updateQuantity (index : nat) (delta : Z) (prev : Cart) : Cart :=
  mapIndex
    (fun item i =>
       if Nat.eqb i index then
         let newQ := (CartItem.quantity item + delta)%Z in
         if (0 <? newQ)%Z
         then CartItem.mk (CartItem.item item) newQ (CartItem.note item)
                (CartItem.selectedOptions item)
         else item
       else item)
    0 prev.

Definition totalItems (cart : Cart) : Z :=
  fold_left (fun sum item => (sum + CartItem.quantity item)%Z) cart 0%Z.

(** The entry names a choice of the item: a group of the item has the
    name, and the first such group has a choice of the chosen name. *)
Definition selects (item : MenuItem.t) (entry : string * string) : bool :=
  match find (fun o => String.eqb (MenuOption.name o) (fst entry))
          (MenuItem.options item) with
  | Some option =>
      match find (fun c => String.eqb (MenuChoice.name c) (snd entry))
              (MenuOption.choices option) with
      | Some _ => true
      | None => false
      end
  | None => false
  end.

(** * Vocabulary of the properties *)

(** The header [k] equals one of the synonyms, case-insensitively. *)
Definition equalsSynonym (keys : list string) (k : string) : Prop :=
  exists s, In s keys /\ toLowerCase k = toLowerCase s.

(** The header [k] contains one of the strings, case-insensitively. *)
Definition containsOneOf (strs : list string) (k : string) : Prop :=
  exists s a b, In s strs /\ toLowerCase k = a ++ toLowerCase s ++ b.

(** [k], holding [v], is the first column of [row] that satisfies [P]. *)
Definition firstColumn (P : string -> Prop) (row : Row) (k : string) (v : value)
    : Prop :=
  exists pre post,
    row = (pre ++ (k, v) :: post)%list /\ P k
    /\ forall k' v', In (k', v') pre -> ~ P k'.

Definition namedColumns (row : Row) : Prop :=
  forall k v, In (k, v) row -> k <> "".

(** The exact search as the specification words it: the synonyms are tried
    in their order, and the first one that equals the header of some column
    decides. *)
Fixpoint exactBySynonym (row : Row) (keys : list string) : option value :=
  match keys with
  | [] => None
  | s :: ks =>
      match find (fun kv => String.eqb (toLowerCase (fst kv)) (toLowerCase s)) row with
      | Some (_, v) => Some v
      | None => exactBySynonym row ks
      end
  end.

(** Column resolution as the specification words it. *)
Definition getValue_by_synonym (row : Row) (keys exclude : list string) : value :=
  match exactBySynonym row keys with
  | Some v => v
  | None =>
      match find (fun kv => partialMatch keys exclude (fst kv)) row with
      | Some (_, v) => v
      | None => VUndef
      end
  end.

(** The nine keywords in the order the specification lists them. *)
Definition nineKeywords : list string :=
  [ "name"; "menu"; "item"; "category"; "price"; "ชื่อ"; "รายการ"; "หมวด";
    "ราคา" ].

(** [s] contains [sub] as a substring. *)
Definition contains (s sub : string) : Prop := exists a b, s = a ++ sub ++ b.

(** A row the fold treats as an item row: not a setting row, and with a
    truthy name cell. *)
Definition itemRow (row : Row) : Prop :=
  isConfigRow (resolve row) = false /\ truthy (rawName (resolve row)) = true.

Definition kimchiRow : Row :=
  [ ("Category", VStr "Main"); ("Name", VStr "Kimchi Fried Rice");
    ("Price", VNum 120); ("Description", VStr "เผ็ดนิดๆ") ].

(** The character [c] does not occur in [s]. *)
Definition noChar (c : ascii) (s : string) : Prop :=
  forall a b, s <> a ++ String c b.

Definition lineRow : Row :=
  [ ("Category", VStr "Setting"); ("Name", VStr "Line");
    ("Price", VStr "https://line.me/R/ti/p/@seoulgood") ].

Definition readKey (k : configKey) (c : AppConfig.t) : option string :=
  match k with
  | Logo => AppConfig.logoUrl c
  | Qr => AppConfig.qrCodeUrl c
  | Line => AppConfig.lineOaId c
  end.

(** The row assigns [v] to the configuration key [k]: it is a setting row
    filed under [k], and [v] is what its own cells give for that key (a
    Line row assigns only when it holds a value). *)
Definition writes (row : Row) (k : configKey) (v : string) : Prop :=
  isConfigRow (resolve row) = true
  /\ configKeyOf (resolve row) = Some k
  /\ match k with
     | Logo | Qr => v = processedImg (resolve row)
     | Line => truthy (possibleId row (resolve row)) = true
               /\ v = extractLineId (possibleId row (resolve row))
     end.

(** All row objects of a workbook, sheet after sheet, row after row. *)
Definition allRows (wb : Workbook) : list Row := flat_map rawData wb.

Definition blankNameSheet : Sheet :=
  mkSheet
    [ [VStr "Name"; VStr "Price"]; [VStr " "; VNum 10] ]
    (fun h => match h with
              | O => [ [("Name", VStr " "); ("Price", VNum 10)] ]
              | S _ => []
              end).

Definition isGroup (g : string) (o : MenuOption.t) : bool :=
  String.eqb (MenuOption.name o) g.

Definition namedChoice (c : string) (ch : MenuChoice.t) : bool :=
  String.eqb (MenuChoice.name ch) c.

(** How many choices named [c] a found group holds; 0 without a group. *)
Definition countIn (c : string) (found : option MenuOption.t) : nat :=
  match found with
  | Some o => List.length (filter (namedChoice c) (MenuOption.choices o))
  | None => 0
  end.

(** How many choices named [c] the group [g] of the item [n] holds. *)
Definition choiceCount (items : GroupedItems) (n g c : string) : nat :=
  match find (hasName n) items with
  | Some it => countIn c (find (isGroup g) (MenuItem.options it))
  | None => 0
  end.

(** [opts'] is [opts] with choices appended to some groups and groups
    appended at the end: nothing removed, renamed or reordered. *)
Inductive grown : list MenuOption.t -> list MenuOption.t -> Prop :=
  | grown_nil (added : list MenuOption.t) : grown [] added
  | grown_cons (o o' : MenuOption.t) (l l' : list MenuOption.t)
      (more : list MenuChoice.t) :
      MenuOption.name o' = MenuOption.name o ->
      MenuOption.choices o' = (MenuOption.choices o ++ more)%list ->
      grown l l' ->
      grown (o :: l) (o' :: l').



(** ** Vocabulary of the further properties *)

(** [it'] is [it] with options appended: every other field is the same. *)
Definition sameItemGrown (it it' : MenuItem.t) : Prop :=
  MenuItem.id it' = MenuItem.id it
  /\ MenuItem.category it' = MenuItem.category it
  /\ MenuItem.name it' = MenuItem.name it
  /\ MenuItem.price it' = MenuItem.price it
  /\ MenuItem.description it' = MenuItem.description it
  /\ MenuItem.image it' = MenuItem.image it
  /\ MenuItem.isSpicy it' = MenuItem.isSpicy it
  /\ grown (MenuItem.options it) (MenuItem.options it').

(** [l'] holds the items of [l] at their positions, each with options
    appended at most, followed by new items. *)
Definition evolved (l l' : GroupedItems) : Prop :=
  exists kept added,
    l' = (kept ++ added)%list /\ Forall2 sameItemGrown l kept.

(** The id given to the item created in position [i]. *)
Definition idOf (i : nat) : string := "item-" ++ ofZ (Z.of_nat i).

Definition isConfig (row : Row) : bool := isConfigRow (resolve row).

Definition indexOf (it : MenuItem.t) : option Z := arrayIndex (MenuItem.name it).

(** The items are in ascending order of the array index their names
    denote. *)
Definition ascending (l : list MenuItem.t) : Prop :=
  StronglySorted
    (fun a b => match indexOf a, indexOf b with
                | Some x, Some y => (x <= y)%Z
                | _, _ => False
                end) l.

(** No two choices of the group have the same name. *)
Definition uniqueChoices (o : MenuOption.t) : Prop :=
  NoDup (map MenuChoice.name (MenuOption.choices o)).

(** No two groups of the options have the same name. *)
Definition uniqueGroups (opts : list MenuOption.t) : Prop :=
  NoDup (map MenuOption.name opts).

(** The comma-separated list of the row, when it is the encoding in use,
    repeats no token. *)
Definition distinctTokens (row : Row) : Prop :=
  rowBased row = None ->
  forall optName toks, commaSeparated row = Some (optName, toks) -> NoDup toks.

(** The option header of the row, when the comma-separated encoding is in
    use, is a text cell. *)
Definition textHeader (row : Row) : Prop :=
  rowBased row = None ->
  forall optName toks,
    commaSeparated row = Some (optName, toks) -> exists s, optName = VStr s.

(** A character from ! to ~: printing ASCII other than the space. *)
Definition visible (c : ascii) : bool :=
  let n := nat_of_ascii c in (33 <=? n)%nat && (n <=? 126)%nat.

Definition allVisible (s : string) : bool :=
  forallb visible (list_ascii_of_string s).

(** A character a file id may hold here: visible, and neither the slash
    nor the ampersand that end the two patterns. *)
Definition isIdChar (c : ascii) : bool :=
  visible c && negb (Ascii.eqb c "/") && negb (Ascii.eqb c "&").

Definition fileId (id : string) : bool :=
  forallb isIdChar (list_ascii_of_string id).

(** The direct-content link [processImageUrl] builds for a file id. *)
Definition directLink (id : string) : string :=
  "https://drive.google.com/uc?export=view&id=" ++ id.

(** * Properties *)

(** ** Strings *)

Lemma strip_app (p s r : string) : strip p s = Some r <-> s = p ++ r.
Proof.
  revert s; induction p as [|a p IH]; intros s; simpl.
  - split; congruence.
  - destruct s as [|b s]; [split; discriminate|].
    destruct (Ascii.eqb_spec a b) as [->|Hab].
    + rewrite IH. split; congruence.
    + split; [discriminate|]. intros H; injection H; congruence.
Qed.

Lemma startsWith_app (s p : string) :
  startsWith s p = true <-> exists r, s = p ++ r.
Proof.
  unfold startsWith. split.
  - destruct (strip p s) as [r|] eqn:E; [|discriminate].
    intros _. exists r. now apply strip_app.
  - intros [r H]. apply strip_app in H. now rewrite H.
Qed.

(** [includes] is the substring test. *)
Lemma includes_spec (hay needle : string) :
  includes hay needle = true <-> exists a b, hay = a ++ needle ++ b.
Proof.
  induction hay as [|c hay IH].
  - cbn [includes]. rewrite orb_false_r, startsWith_app. split.
    + intros [r H]. exists "", r. exact H.
    + intros [a [b H]]. destruct a; [eauto|discriminate].
  - cbn [includes]. rewrite orb_true_iff, startsWith_app, IH. split.
    + intros [[r H]|[a [b H]]].
      * exists "", r. exact H.
      * exists (String c a), b. simpl. now rewrite H.
    + intros [a [b H]]. destruct a as [|c' a].
      * left. exists b. exact H.
      * right. exists a, b. simpl in H. congruence.
Qed.

(** ** Column resolution *)

Lemma exactMatch_spec keys k : exactMatch keys k = true <-> equalsSynonym keys k.
Proof.
  unfold exactMatch, equalsSynonym. rewrite existsb_exists.
  split; intros [s [Hs H]]; exists s; split; auto; now apply String.eqb_eq.
Qed.

Lemma containsOneOf_spec strs k :
  existsb (fun s => includes (toLowerCase k) (toLowerCase s)) strs = true
  <-> containsOneOf strs k.
Proof.
  unfold containsOneOf. rewrite existsb_exists. split.
  - intros [s [Hs H]]. apply includes_spec in H as [a [b H]]. eauto.
  - intros [s [a [b [Hs H]]]]. exists s. split; auto.
    apply includes_spec; eauto.
Qed.

Lemma partialMatch_spec keys exclude k :
  partialMatch keys exclude k = true
  <-> containsOneOf keys k /\ ~ containsOneOf exclude k.
Proof.
  unfold partialMatch. cbv zeta.
  rewrite andb_true_iff, negb_true_iff, <- not_true_iff_false.
  now rewrite !containsOneOf_spec.
Qed.

Lemma find_firstColumn (p : string -> bool) (P : string -> Prop) row k v :
  (forall x, p x = true <-> P x) ->
  firstColumn P row k v ->
  find p (Object_keys row) = Some k /\ get row k = v.
Proof.
  intros Hp [pre [post [-> [Hk Hpre]]]].
  induction pre as [|[k' v'] pre IH]; simpl.
  - apply Hp in Hk. rewrite Hk, String.eqb_refl. auto.
  - assert (Hk' : ~ P k') by (apply (Hpre k' v'); now left).
    destruct (p k') eqn:E; [apply Hp in E; contradiction|].
    destruct (String.eqb_spec k' k) as [->|_]; [contradiction|].
    apply IH. intros a b Hin. apply (Hpre a b). now right.
Qed.

Lemma find_none_columns (p : string -> bool) (P : string -> Prop) (row : Row) :
  (forall x, p x = true <-> P x) ->
  (forall k v, In (k, v) row -> ~ P k) ->
  find p (Object_keys row) = None.
Proof.
  intros Hp H. induction row as [|[k v] row IH]; simpl; auto.
  destruct (p k) eqn:E.
  - apply Hp in E. exfalso. apply (H k v); auto. now left.
  - apply IH. intros a b Hin. apply (H a b). now right.
Qed.

Lemma firstColumn_named P row k v :
  namedColumns row -> firstColumn P row k v -> k <> "".
Proof.
  intros Hn [pre [post [-> _]]]. apply (Hn k v).
  apply in_or_app. right. now left.
Qed.

Lemma found_named (k : string) : k <> "" -> found (Some k) = Some k.
Proof. destruct k; simpl; congruence. Qed.

(** C1, as stated, fails: with the columns Menu and Name in this order and
    the synonyms of the name field (name before menu), the first synonym
    that equals a header is name, whose column holds Bibimbap, but
    [getValue] returns the cell of the Menu column. *)
Lemma getValue_not_by_synonym :
  let row := [("Menu", VStr "Lunch set"); ("Name", VStr "Bibimbap")] in
  getValue_by_synonym row nameKeys nameExclude = VStr "Bibimbap"
  /\ getValue row nameKeys nameExclude = VStr "Lunch set"
  /\ getValue row nameKeys nameExclude
     <> getValue_by_synonym row nameKeys nameExclude.
Proof. cbv zeta. split; [|split]; [reflexivity|reflexivity|discriminate]. Qed.

(** C1 (amended): on a row whose headers are non-empty, [getValue] returns
    the cell of the first column, in column order, whose header equals one
    of the synonyms case-insensitively, whatever partial matches precede
    it; when no header equals a synonym, the cell of the first column whose
    header contains a synonym and no exclusion string; and undefined when
    no column qualifies under either rule. *)
Theorem getValue_two_tiers (row : Row) (keys exclude : list string)
    (Hnamed : namedColumns row) :
  (forall k v, firstColumn (equalsSynonym keys) row k v ->
     getValue row keys exclude = v)
  /\ ((forall k v, In (k, v) row -> ~ equalsSynonym keys k) ->
      forall k v,
        firstColumn (fun k => containsOneOf keys k /\ ~ containsOneOf exclude k)
          row k v ->
        getValue row keys exclude = v)
  /\ ((forall k v, In (k, v) row -> ~ equalsSynonym keys k) ->
      (forall k v, In (k, v) row ->
         ~ (containsOneOf keys k /\ ~ containsOneOf exclude k)) ->
      getValue row keys exclude = VUndef).
Proof.
  unfold getValue. cbv zeta. split; [|split].
  - intros k v H.
    destruct (find_firstColumn _ _ row k v (exactMatch_spec keys) H) as [-> Hg].
    rewrite found_named; eauto using firstColumn_named.
  - intros Hno k v H.
    rewrite (find_none_columns _ _ row (exactMatch_spec keys) Hno). simpl.
    destruct (find_firstColumn _ _ row k v (partialMatch_spec keys exclude) H)
      as [-> Hg].
    rewrite found_named; eauto using firstColumn_named.
  - intros Hno Hnp.
    rewrite (find_none_columns _ _ row (exactMatch_spec keys) Hno). simpl.
    now rewrite (find_none_columns _ _ row (partialMatch_spec keys exclude) Hnp).
Qed.

Lemma getValue_two_tiers_witness :
  let row := [("Item price", VNum 5); ("Menu", VStr "Lunch set");
              ("Name", VStr "Bibimbap")] in
  namedColumns row /\ getValue row nameKeys nameExclude = VStr "Lunch set".
Proof.
  cbv zeta. assert (Hn : namedColumns
    [("Item price", VNum 5); ("Menu", VStr "Lunch set"); ("Name", VStr "Bibimbap")]).
  { intros k v [H|[H|[H|[]]]]; inversion H; discriminate. }
  split; [exact Hn|].
  apply (proj1 (getValue_two_tiers _ nameKeys nameExclude Hn) "Menu").
  exists [("Item price", VNum 5)], [("Name", VStr "Bibimbap")].
  split; [reflexivity|]. split.
  - exists "menu". split; [simpl; auto|reflexivity].
  - intros k' v' [H|[]]. inversion H; subst.
    intros [s [Hs He]]. simpl in Hs.
    repeat (destruct Hs as [<-|Hs]; [discriminate He|]). exact Hs.
Defined.

(** ** Header detection *)

Lemma scanRows_found rows n : forall i0 i,
  i0 <= i < i0 + n ->
  2 <= matchCount (nth i rows []) ->
  (forall j, i0 <= j < i -> matchCount (nth j rows []) < 2) ->
  scanRows rows n i0 = i.
Proof.
  induction n as [|n IH]; intros i0 i Hi Hm Hbefore; [lia|].
  cbn [scanRows].
  destruct (Nat.leb_spec 2 (matchCount (nth i0 rows []))) as [Hge|Hlt].
  - destruct (Nat.eq_dec i0 i) as [Heq|Hne]; [exact Heq|].
    specialize (Hbefore i0). lia.
  - destruct (Nat.eq_dec i0 i) as [->|Hne]; [lia|].
    apply IH; [lia|assumption|]. intros j Hj. apply Hbefore. lia.
Qed.

Lemma scanRows_none rows n : forall i0,
  (forall j, i0 <= j < i0 + n -> matchCount (nth j rows []) < 2) ->
  scanRows rows n i0 = 0.
Proof.
  induction n as [|n IH]; intros i0 H; [reflexivity|].
  cbn [scanRows].
  destruct (Nat.leb_spec 2 (matchCount (nth i0 rows []))) as [Hge|Hlt].
  - specialize (H i0). lia.
  - apply IH. intros j Hj. apply H. lia.
Qed.

Lemma length_filter_cons {A} (p : A -> bool) (x : A) (l : list A) :
  List.length (filter p (x :: l)) = Nat.b2n (p x) + List.length (filter p l).
Proof. cbn [filter]. now destruct (p x). Qed.

Lemma matchCount_nineKeywords (cells : list value) :
  matchCount cells
  = List.length
      (filter (fun k => includes (toLowerCase (JSON_stringify cells)) k)
         nineKeywords).
Proof.
  unfold matchCount, searchKeywords, nineKeywords. cbv zeta.
  generalize (toLowerCase (JSON_stringify cells)). intros s.
  rewrite !length_filter_cons. cbn [filter List.length]. lia.
Qed.

(** C2: the header row of a sheet is the topmost of its first ten rows
    whose stringified, lowercased cells contain at least two of the nine
    keywords, and row 0 when none of them does; a sheet without rows leaves
    the accumulator as it is, and any other sheet is folded from the row
    objects below the detected header row. *)
Theorem headerRowIndex_first_match (rows : list (list value)) :
  (forall i,
     i < Nat.min (List.length rows) 10 ->
     2 <= matchCount (nth i rows []) ->
     (forall j, j < i -> matchCount (nth j rows []) < 2) ->
     headerRowIndex rows = i)
  /\ ((forall i, i < Nat.min (List.length rows) 10 ->
         matchCount (nth i rows []) < 2) ->
      headerRowIndex rows = 0)
  /\ (forall cells,
        matchCount cells
        = List.length
            (filter (fun k => includes (toLowerCase (JSON_stringify cells)) k)
               nineKeywords))
  /\ (forall acc sheet, aoa sheet = [] -> processSheet acc sheet = acc)
  /\ (forall acc sheet, aoa sheet = rows -> rows <> [] ->
        processSheet acc sheet
        = fold_left processRow (objects sheet (headerRowIndex rows)) acc).
Proof.
  unfold headerRowIndex. repeat split.
  - intros i Hi Hm Hb. apply scanRows_found; [lia|assumption|].
    intros j Hj. apply Hb. lia.
  - intros H. apply scanRows_none. intros j Hj. apply H. lia.
  - apply matchCount_nineKeywords.
  - intros acc sheet H. unfold processSheet. now rewrite H.
  - intros acc sheet H Hne. unfold processSheet, headerRowIndex. rewrite H.
    destruct rows; [contradiction|reflexivity].
Qed.

Lemma headerRowIndex_first_match_witness :
  headerRowIndex
    [ [VStr "SeoulGood menu"]; []; [VStr "Name"; VStr "Price"];
      [VStr "Item"; VStr "Category"] ] = 2.
Proof.
  apply (proj1 (headerRowIndex_first_match _) 2).
  - vm_compute. lia.
  - vm_compute. lia.
  - intros j Hj. destruct j as [|[|j]]; [vm_compute; lia|vm_compute; lia|lia].
Defined.

(** ** The pipeline boundary *)

Lemma includes_empty_hay (needle : string) :
  includes "" needle = true -> needle = "".
Proof.
  intros H. apply includes_spec in H as [a [b H]].
  destruct a; [destruct needle; [reflexivity|discriminate]|discriminate].
Qed.

(** C7: when the request is rejected, the response is not ok, or its
    content type contains text/html, the promise is fulfilled with the
    empty result; and the promise is fulfilled, never rejected, on every
    outcome of the request. *)
Theorem fetch_failure_gives_empty_result (fetched : option Response) :
  ((fetched = None
    \/ exists response, fetched = Some response
        /\ (ok response = false
            \/ exists contentType, content_type response = Some contentType
                /\ includes contentType "text/html" = true)) ->
   fetchMenuFromSheet fetched = Fulfilled emptyResult)
  /\ exists data, fetchMenuFromSheet fetched = Fulfilled data.
Proof.
  split.
  - intros [->|[response [-> [Hok|[ct [Hct Hinc]]]]]]; [reflexivity| |].
    + unfold fetchMenuFromSheet, tryBlock. rewrite Hok.
      destruct (content_type response) as [c|]; [|reflexivity].
      destruct (nonEmpty c && includes c "text/html"); reflexivity.
    + unfold fetchMenuFromSheet, tryBlock. rewrite Hct, Hinc.
      destruct ct as [|a ct]; [apply includes_empty_hay in Hinc; discriminate|].
      reflexivity.
  - unfold fetchMenuFromSheet. destruct (tryBlock fetched); eauto.
Qed.

Lemma fetch_failure_gives_empty_result_witness :
  fetchMenuFromSheet
    (Some (mkResponse (Some "text/html; charset=utf-8") true (Some [])))
  = Fulfilled emptyResult.
Proof.
  apply (proj1 (fetch_failure_gives_empty_result _)).
  right. eexists. split; [reflexivity|]. right.
  eexists. split; reflexivity.
Defined.

(** ** Row classification *)

Lemma processRow_config acc row :
  isConfigRow (resolve row) = true ->
  processRow acc row
  = mkAcc (groupedItems acc) (extractConfig row (resolve row) (config acc)).
Proof. intros H. unfold processRow. cbv zeta. now rewrite H. Qed.

Lemma processRow_nameless acc row :
  isConfigRow (resolve row) = false ->
  truthy (rawName (resolve row)) = false ->
  processRow acc row = acc.
Proof. intros H1 H2. unfold processRow. cbv zeta. now rewrite H1, H2. Qed.

Lemma processRow_item acc row :
  itemRow row ->
  processRow acc row
  = match lookup (groupedItems acc) (name (resolve row)) with
    | Own _ =>
        mkAcc
          (updateFirst (hasName (name (resolve row)))
             (fun it => setOptions it (mergeOptions row (MenuItem.options it)))
             (groupedItems acc))
          (config acc)
    | Missing =>
        mkAcc
          (groupedItems acc
           ++ [setOptions (newItem row (resolve row) (groupedItems acc))
                 (mergeOptions row [])])%list
          (config acc)
    | Inherited => acc
    end.
Proof. intros [H1 H2]. unfold processRow. cbv zeta. now rewrite H1, H2. Qed.

(** ** The spicy flag *)

(** C5, as stated, fails: the scenario row does not produce an item with
    [isSpicy] true, because the description is searched for one marker
    only and the name holds none. *)
Lemma kimchi_row_not_spicy :
  ~ exists it,
      groupedItems (processRow emptyAcc kimchiRow) = [it]
      /\ MenuItem.name it = "Kimchi Fried Rice"
      /\ MenuItem.price it = 120%Z
      /\ MenuItem.isSpicy it = true.
Proof.
  intros [it [H [_ [_ Hs]]]]. vm_compute in H.
  injection H as <-. discriminate Hs.
Qed.

Lemma spicy_spec (n : string) (desc : value) :
  spicy n desc = true
  <-> contains n "Spicy"
      \/ (truthy desc = true /\ contains (String_ desc) "พริก")
      \/ contains n "ต้มยำ"
      \/ contains n "เผ็ด".
Proof.
  unfold spicy, contains.
  rewrite !orb_true_iff, andb_true_iff, !includes_spec. tauto.
Qed.

(** C5 (amended): the scenario row produces the item named Kimchi Fried
    Rice with price 120 and [isSpicy] false; and for every created item,
    [isSpicy] is true exactly when its name contains Spicy, ต้มยำ or เผ็ด,
    or its description contains พริก. *)
Theorem isSpicy_by_field :
  (exists it,
     groupedItems (processRow emptyAcc kimchiRow) = [it]
     /\ MenuItem.name it = "Kimchi Fried Rice"
     /\ MenuItem.price it = 120%Z
     /\ MenuItem.isSpicy it = false)
  /\ forall acc row,
       itemRow row ->
       lookup (groupedItems acc) (name (resolve row)) = Missing ->
       exists it,
         groupedItems (processRow acc row) = (groupedItems acc ++ [it])%list
         /\ MenuItem.name it = name (resolve row)
         /\ (MenuItem.isSpicy it = true
             <-> contains (MenuItem.name it) "Spicy"
                 \/ (exists d, MenuItem.description it = Some d
                               /\ contains d "พริก")
                 \/ contains (MenuItem.name it) "ต้มยำ"
                 \/ contains (MenuItem.name it) "เผ็ด").
Proof.
  split.
  - eexists. split; [vm_compute; reflexivity|]. repeat split.
  - intros acc row Hitem Hmiss. rewrite (processRow_item _ _ Hitem), Hmiss.
    eexists. split; [reflexivity|]. split; [reflexivity|].
    cbn [setOptions newItem MenuItem.isSpicy MenuItem.name MenuItem.description].
    rewrite spicy_spec.
    set (desc := getValue row _ []).
    destruct (truthy desc) eqn:Ht.
    + split.
      * intros [H|[[_ H]|H]]; eauto.
      * intros [H|[[d [Hd H]]|H]]; auto.
        injection Hd as <-. auto.
    + split.
      * intros [H|[[H _]|H]]; auto; discriminate.
      * intros [H|[[d [Hd H]]|H]]; auto; discriminate.
Qed.

Lemma isSpicy_by_field_witness :
  exists it,
    groupedItems
      (processRow emptyAcc
         [("Name", VStr "Tom Yum"); ("Detail", VStr "กุ้ง พริก มะนาว")])
    = ([] ++ [it])%list
    /\ MenuItem.isSpicy it = true.
Proof.
  destruct (proj2 isSpicy_by_field emptyAcc
              [("Name", VStr "Tom Yum"); ("Detail", VStr "กุ้ง พริก มะนาว")])
    as [it [H1 [H2 H3]]].
  - split; reflexivity.
  - reflexivity.
  - exists it. split; [exact H1|].
    vm_compute in H1. injection H1 as <-. reflexivity.
Defined.

(** ** Splitting *)

Lemma noChar_cons c x s : noChar c (String x s) -> x <> c /\ noChar c s.
Proof.
  intros H. split.
  - intros ->. now apply (H "" s).
  - intros a b ->. now apply (H (String x a) b).
Qed.

Lemma split_noChar sep s : noChar sep s -> split sep s = [s].
Proof.
  induction s as [|x s IH]; intros H; [reflexivity|].
  apply noChar_cons in H as [Hx Hs]. cbn [split]. rewrite (IH Hs).
  destruct (Ascii.eqb_spec x sep); [contradiction|reflexivity].
Qed.

Lemma split_not_nil sep s : split sep s <> [].
Proof.
  destruct s as [|x s]; cbn [split]; [discriminate|].
  destruct (Ascii.eqb x sep); [discriminate|].
  destruct (split sep s); discriminate.
Qed.

Lemma split_snoc sep pre seg :
  noChar sep seg ->
  exists h t, split sep (pre ++ String sep seg) = (h :: t ++ [seg])%list.
Proof.
  intros Hseg. induction pre as [|x pre [h [t IH]]]; cbn [append split].
  - rewrite Ascii.eqb_refl, (split_noChar _ _ Hseg). now exists "", [].
  - rewrite IH. destruct (Ascii.eqb x sep).
    + now exists "", (h :: t).
    + now exists (String x h), t.
Qed.

Lemma split_last sep pre seg :
  noChar sep seg -> last (split sep (pre ++ String sep seg)) "" = seg.
Proof.
  intros H. destruct (split_snoc sep pre seg H) as [h [t ->]].
  change (h :: t ++ [seg])%list with ((h :: t) ++ [seg])%list.
  apply last_last.
Qed.

Lemma split_hd sep id rest :
  noChar sep id -> hd "" (split sep (id ++ String sep rest)) = id.
Proof.
  induction id as [|x id IH]; intros H; cbn [append split].
  - now rewrite Ascii.eqb_refl.
  - apply noChar_cons in H as [Hx Hid]. specialize (IH Hid).
    destruct (Ascii.eqb_spec x sep); [contradiction|].
    destruct (split sep (id ++ String sep rest)) as [|h t] eqn:E.
    + now apply split_not_nil in E.
    + simpl in IH. now subst.
Qed.

(** What [extractLineId] keeps of a value that mentions line.me: the text
    behind the last slash, cut before its first question mark. *)
Lemma extractLineId_segment (v : value) (pre seg : string) :
  truthy v = true ->
  contains (trim (String_ v)) "line.me" ->
  trim (String_ v) = pre ++ String "/" seg ->
  noChar "/" seg ->
  (forall id rest, seg = id ++ String "?" rest -> noChar "?" id ->
     extractLineId v = id)
  /\ (noChar "?" seg -> extractLineId v = seg).
Proof.
  intros Ht Hc Hstr Hseg. unfold extractLineId. rewrite Ht. cbn [negb].
  assert (Hi : includes (trim (String_ v)) "line.me" = true)
    by (apply includes_spec; exact Hc).
  rewrite Hi, Hstr, (split_last _ _ _ Hseg). split.
  - intros id rest -> Hid. now apply split_hd.
  - intros Hq. now rewrite (split_noChar _ _ Hq).
Qed.

(** ** Configuration rows *)

Lemma configKeyOf_line r :
  includes (toLowerCase (name r)) "line" = true ->
  includes (toLowerCase (name r)) "logo" = false ->
  includes (toLowerCase (name r)) "qr" = false ->
  includes (toLowerCase (name r)) "payment" = false ->
  configKeyOf r = Some Line.
Proof. intros H1 H2 H3 H4. unfold configKeyOf. now rewrite H2, H3, H4, H1. Qed.

Lemma possibleId_image row r :
  processedImg r <> "" -> possibleId row r = VStr (processedImg r).
Proof.
  intros H. unfold possibleId, or_else.
  assert (Ht : truthy (VStr (processedImg r)) = true).
  { cbn [truthy]. now destruct (String.eqb_spec (processedImg r) ""). }
  now rewrite !Ht.
Qed.

Lemma possibleId_fallback row r :
  processedImg r = "" ->
  truthy (getValue row lineIdKeys []) = true ->
  possibleId row r = getValue row lineIdKeys [].
Proof.
  intros H Hv. unfold possibleId, or_else. rewrite H.
  change (truthy (VStr "")) with false. cbv iota. now rewrite Hv.
Qed.

Lemma possibleId_empty row r :
  processedImg r = "" ->
  truthy (getValue row lineIdKeys []) = false ->
  truthy (possibleId row r) = false.
Proof.
  intros H Hv. unfold possibleId, or_else. rewrite H.
  change (truthy (VStr "")) with false. cbv iota. now rewrite Hv.
Qed.

(** C6, as stated, fails: a setting row whose name contains line and also
    logo is filed under the logo key, and [lineOaId] is not set. *)
Lemma line_logo_row_sets_no_lineOaId :
  let row := [ ("Category", VStr "Setting"); ("Name", VStr "Line Logo");
               ("Price", VStr "https://line.me/R/ti/p/@seoulgood") ] in
  isConfigRow (resolve row) = true
  /\ includes (toLowerCase (name (resolve row))) "line" = true
  /\ AppConfig.lineOaId (config (processRow emptyAcc row)) = None
  /\ AppConfig.lineOaId (config (processRow emptyAcc row)) <> Some "@seoulgood".
Proof.
  cbv zeta. split; [|split; [|split]]; try (vm_compute; reflexivity).
  vm_compute. discriminate.
Qed.

(** C6 (amended): the scenario row yields [lineOaId] = @seoulgood; a
    setting row whose name contains line and none of logo, qr and payment
    sets [lineOaId] from the normalised image field when that is non-empty,
    and otherwise from the price/value/description/option field when that
    holds a value, passing it through [extractLineId]; and [extractLineId]
    reduces a value that mentions line.me to the text after its final slash
    up to the first question mark. *)
Theorem line_row_sets_lineOaId :
  AppConfig.lineOaId (config (processRow emptyAcc lineRow)) = Some "@seoulgood"
  /\ (forall acc row,
        isConfigRow (resolve row) = true ->
        includes (toLowerCase (name (resolve row))) "line" = true ->
        includes (toLowerCase (name (resolve row))) "logo" = false ->
        includes (toLowerCase (name (resolve row))) "qr" = false ->
        includes (toLowerCase (name (resolve row))) "payment" = false ->
        (processedImg (resolve row) <> "" ->
         AppConfig.lineOaId (config (processRow acc row))
         = Some (extractLineId (VStr (processedImg (resolve row)))))
        /\ (processedImg (resolve row) = "" ->
            truthy (getValue row lineIdKeys []) = true ->
            AppConfig.lineOaId (config (processRow acc row))
            = Some (extractLineId (getValue row lineIdKeys []))))
  /\ (forall v pre seg,
        truthy v = true ->
        contains (trim (String_ v)) "line.me" ->
        trim (String_ v) = pre ++ String "/" seg ->
        noChar "/" seg ->
        (forall id rest, seg = id ++ String "?" rest -> noChar "?" id ->
           extractLineId v = id)
        /\ (noChar "?" seg -> extractLineId v = seg)).
Proof.
  split; [reflexivity|]. split; [|apply extractLineId_segment].
  intros acc row Hcfg Hline Hlogo Hqr Hpay.
  rewrite (processRow_config _ _ Hcfg).
  unfold extractConfig. rewrite (configKeyOf_line _ Hline Hlogo Hqr Hpay).
  cbv zeta. split.
  - intros Hne. rewrite (possibleId_image row _ Hne).
    cbn [truthy]. destruct (String.eqb_spec (processedImg (resolve row)) "");
      [contradiction|reflexivity].
  - intros He Hv. rewrite (possibleId_fallback row _ He Hv), Hv. reflexivity.
Qed.

Lemma line_row_sets_lineOaId_witness :
  AppConfig.lineOaId
    (config
       (processRow emptyAcc
          [ ("Type", VStr "Config"); ("Name", VStr "LINE OA");
            ("Value", VStr "https://line.me/R/ti/p/@shop?from=sheet") ]))
  = Some "@shop".
Proof.
  set (row := [ ("Type", VStr "Config"); ("Name", VStr "LINE OA");
                ("Value", VStr "https://line.me/R/ti/p/@shop?from=sheet") ]).
  destruct (proj1 (proj2 line_row_sets_lineOaId) emptyAcc row) as [_ H];
    [vm_compute; reflexivity ..|].
  rewrite H; vm_compute; reflexivity.
Defined.

(** C10, as stated, fails: a setting row whose name contains qr and also
    logo, with no image, is filed under the logo key; the QR code URL of
    the earlier row survives. *)
Lemma qr_logo_row_keeps_qrCodeUrl :
  let first := [ ("Category", VStr "Setting"); ("Name", VStr "QR");
                 ("Image", VStr "https://example.com/qr.png") ] in
  let second := [ ("Category", VStr "Setting"); ("Name", VStr "QR Logo") ] in
  let acc := processRow emptyAcc first in
  isConfigRow (resolve second) = true
  /\ includes (toLowerCase (name (resolve second))) "qr" = true
  /\ truthy (getValue second imageKeys []) = false
  /\ AppConfig.qrCodeUrl (config acc) = Some "https://example.com/qr.png"
  /\ AppConfig.qrCodeUrl (config (processRow acc second))
     = Some "https://example.com/qr.png"
  /\ AppConfig.qrCodeUrl (config (processRow acc second)) <> Some "".
Proof.
  cbv zeta. repeat (split; [vm_compute; reflexivity|]).
  vm_compute. discriminate.
Qed.

Lemma processedImg_unresolved row :
  truthy (getValue row imageKeys []) = false -> processedImg (resolve row) = "".
Proof. intros H. unfold resolve. cbv zeta. cbn [processedImg]. now rewrite H. Qed.

(** C10 (amended): on a setting row whose image field does not resolve, a
    name containing logo sets [logoUrl] to the empty string; a name
    containing qr or payment, and not logo, sets [qrCodeUrl] to the empty
    string; in both cases whatever an earlier row stored under that key is
    gone and the other keys are kept.  A row whose name contains line and
    whose image and fallback fields all resolve to nothing leaves
    [lineOaId] as it was. *)
Theorem unresolved_image_erases_url (acc : Acc) (row : Row)
    (Hcfg : isConfigRow (resolve row) = true)
    (Himg : truthy (getValue row imageKeys []) = false) :
  let lname := toLowerCase (name (resolve row)) in
  let c := config acc in
  let c' := config (processRow acc row) in
  (includes lname "logo" = true ->
   AppConfig.logoUrl c' = Some ""
   /\ AppConfig.qrCodeUrl c' = AppConfig.qrCodeUrl c
   /\ AppConfig.lineOaId c' = AppConfig.lineOaId c)
  /\ (includes lname "logo" = false ->
      includes lname "qr" = true \/ includes lname "payment" = true ->
      AppConfig.qrCodeUrl c' = Some ""
      /\ AppConfig.logoUrl c' = AppConfig.logoUrl c
      /\ AppConfig.lineOaId c' = AppConfig.lineOaId c)
  /\ (includes lname "line" = true ->
      truthy (getValue row lineIdKeys []) = false ->
      AppConfig.lineOaId c' = AppConfig.lineOaId c).
Proof.
  cbv zeta. rewrite (processRow_config _ _ Hcfg). cbn [config].
  pose proof (processedImg_unresolved row Himg) as Hp.
  unfold extractConfig, configKeyOf. split; [|split].
  - intros ->. rewrite Hp. repeat split.
  - intros -> Hq.
    assert (Hor : includes (toLowerCase (name (resolve row))) "qr"
                  || includes (toLowerCase (name (resolve row))) "payment" = true)
      by (apply orb_true_iff; exact Hq).
    rewrite Hor, Hp. repeat split.
  - intros Hline Hv.
    destruct (includes (toLowerCase (name (resolve row))) "logo"); [reflexivity|].
    destruct (includes (toLowerCase (name (resolve row))) "qr"
              || includes (toLowerCase (name (resolve row))) "payment");
      [reflexivity|].
    rewrite Hline. cbv zeta. rewrite (possibleId_empty row _ Hp Hv). reflexivity.
Qed.

Lemma unresolved_image_erases_url_witness :
  let first := [ ("Category", VStr "Setting"); ("Name", VStr "Logo");
                 ("Image", VStr "https://example.com/logo.png") ] in
  let second := [ ("Category", VStr "Setting"); ("Name", VStr "Shop logo") ] in
  AppConfig.logoUrl (config (processRow emptyAcc first))
  = Some "https://example.com/logo.png"
  /\ AppConfig.logoUrl (config (processRow (processRow emptyAcc first) second))
     = Some "".
Proof.
  cbv zeta. split; [vm_compute; reflexivity|].
  refine (proj1 (proj1 (unresolved_image_erases_url _ _ _ _) _)).
  - vm_compute; reflexivity.
  - vm_compute; reflexivity.
  - vm_compute; reflexivity.
Defined.

(** ** Last write wins *)

Lemma processSheet_rawData acc sheet :
  processSheet acc sheet = fold_left processRow (rawData sheet) acc.
Proof. unfold processSheet, rawData. now destruct (aoa sheet). Qed.

Lemma fold_sheets_rows (wb : Workbook) : forall acc,
  fold_left processSheet wb acc = fold_left processRow (flat_map rawData wb) acc.
Proof.
  induction wb as [|sheet wb IH]; intros acc; [reflexivity|].
  cbn [fold_left flat_map]. now rewrite fold_left_app, IH, processSheet_rawData.
Qed.

Lemma processWorkbook_rows (wb : Workbook) :
  processWorkbook wb = fold_left processRow (allRows wb) emptyAcc.
Proof. apply fold_sheets_rows. Qed.

Lemma processRow_item_config acc row :
  isConfigRow (resolve row) = false -> config (processRow acc row) = config acc.
Proof.
  intros H. unfold processRow. cbv zeta. rewrite H.
  destruct (negb (truthy (rawName (resolve row)))); [reflexivity|].
  now destruct (lookup (groupedItems acc) (name (resolve row))).
Qed.

Lemma processRow_writes acc row k v :
  writes row k v -> readKey k (config (processRow acc row)) = Some v.
Proof.
  intros [Hcfg [Hk Hv]]. rewrite (processRow_config _ _ Hcfg). cbn [config].
  unfold extractConfig. rewrite Hk.
  destruct k; cbv zeta; [now subst..|].
  destruct Hv as [Ht ->]. now rewrite Ht.
Qed.

Lemma processRow_no_write acc row k :
  (forall v, ~ writes row k v) ->
  readKey k (config (processRow acc row)) = readKey k (config acc).
Proof.
  intros Hno. destruct (isConfigRow (resolve row)) eqn:Hcfg.
  - rewrite (processRow_config _ _ Hcfg). cbn [config]. unfold extractConfig.
    destruct (configKeyOf (resolve row)) as [[| |]|] eqn:Hk; [| | |reflexivity].
    + destruct k; try reflexivity.
      exfalso. apply (Hno (processedImg (resolve row))). now repeat split.
    + destruct k; try reflexivity.
      exfalso. apply (Hno (processedImg (resolve row))). now repeat split.
    + cbv zeta. destruct (truthy (possibleId row (resolve row))) eqn:Ht;
        [|reflexivity].
      destruct k; try reflexivity.
      exfalso. apply (Hno (extractLineId (possibleId row (resolve row)))).
      now repeat split.
  - now rewrite processRow_item_config.
Qed.

Lemma fold_rows_no_write k rows : forall acc,
  (forall r v, In r rows -> ~ writes r k v) ->
  readKey k (config (fold_left processRow rows acc)) = readKey k (config acc).
Proof.
  induction rows as [|r rows IH]; intros acc H; [reflexivity|].
  cbn [fold_left]. rewrite IH.
  - apply processRow_no_write. intros v. apply H. now left.
  - intros r' v Hin. apply H. now right.
Qed.

(** C9: for each configuration key, the final configuration holds the
    value assigned by the last row, in sheet-then-row order, that assigns
    that key, whatever earlier rows assigned; the key is absent when no row
    assigns it. *)
Theorem config_last_write_wins (wb : Workbook) (k : configKey) :
  (forall before row after v,
     allRows wb = (before ++ row :: after)%list ->
     writes row k v ->
     (forall r v', In r after -> ~ writes r k v') ->
     readKey k (MenuData.config (menuData (processWorkbook wb))) = Some v)
  /\ ((forall r v, In r (allRows wb) -> ~ writes r k v) ->
      readKey k (MenuData.config (menuData (processWorkbook wb))) = None).
Proof.
  cbn [menuData MenuData.config]. rewrite processWorkbook_rows. split.
  - intros before row after v -> Hw Hafter.
    rewrite fold_left_app. cbn [fold_left].
    rewrite (fold_rows_no_write k after _ Hafter).
    now apply processRow_writes.
  - intros H. rewrite (fold_rows_no_write k _ _ H). now destruct k.
Qed.

Lemma config_last_write_wins_witness :
  let logo1 := [ ("Category", VStr "Setting"); ("Name", VStr "Logo");
                 ("Image", VStr "https://example.com/old.png") ] in
  let item := [ ("Category", VStr "Main"); ("Name", VStr "Bibimbap");
                ("Price", VNum 150) ] in
  let logo2 := [ ("Category", VStr "System"); ("Name", VStr "Shop logo");
                 ("Image", VStr "https://example.com/new.png") ] in
  let header := [VStr "Category"; VStr "Name"; VStr "Image"] in
  let wb := [ mkSheet [header; []] (fun _ => [logo1; item]);
              mkSheet [] (fun _ => [logo1]);
              mkSheet [header; []; []] (fun _ => [logo2; item]) ] in
  readKey Logo (MenuData.config (menuData (processWorkbook wb)))
  = Some "https://example.com/new.png".
Proof.
  cbv zeta.
  refine (proj1 (config_last_write_wins _ Logo) [_; _] _ [_] _ _ _ _).
  - vm_compute. reflexivity.
  - repeat split; vm_compute; reflexivity.
  - intros r v' [<-|[]] [H _]. vm_compute in H. discriminate H.
Defined.

(** ** Item names *)

Lemma map_name_updateFirst (p : MenuItem.t -> bool) (f : MenuItem.t -> MenuItem.t)
    (l : list MenuItem.t) :
  (forall it, MenuItem.name (f it) = MenuItem.name it) ->
  map MenuItem.name (updateFirst p f l) = map MenuItem.name l.
Proof.
  intros Hf. induction l as [|x l IH]; [reflexivity|].
  cbn [updateFirst]. destruct (p x); cbn [map]; now rewrite ?Hf, ?IH.
Qed.

Lemma find_hasName_none n (l : list MenuItem.t) :
  find (hasName n) l = None -> ~ In n (map MenuItem.name l).
Proof.
  induction l as [|x l IH]; cbn [find map]; [auto|].
  unfold hasName at 1. destruct (String.eqb_spec (MenuItem.name x) n);
    [discriminate|].
  intros H [Hx|Hin]; [contradiction|]. now apply IH.
Qed.

Lemma lookup_missing l n :
  lookup l n = Missing -> find (hasName n) l = None.
Proof. unfold lookup. now destruct (find (hasName n) l). Qed.

(** The names of the accumulated items after one more row: the same, or
    the name of this item row, new, at the end. *)
Lemma processRow_names acc row :
  map MenuItem.name (groupedItems (processRow acc row))
  = map MenuItem.name (groupedItems acc)
  \/ (map MenuItem.name (groupedItems (processRow acc row))
      = (map MenuItem.name (groupedItems acc) ++ [name (resolve row)])%list
      /\ ~ In (name (resolve row)) (map MenuItem.name (groupedItems acc))
      /\ itemRow row).
Proof.
  unfold processRow, itemRow. cbv zeta.
  destruct (isConfigRow (resolve row)); [now left|].
  destruct (truthy (rawName (resolve row))); cbn [negb]; [|now left].
  destruct (lookup (groupedItems acc) (name (resolve row))) eqn:E.
  - left. cbn [groupedItems]. now apply map_name_updateFirst.
  - now left.
  - right. cbn [groupedItems]. rewrite map_app. split; [reflexivity|].
    split; [|now split]. now apply find_hasName_none, lookup_missing.
Qed.

Lemma processRow_NoDup acc row :
  NoDup (map MenuItem.name (groupedItems acc)) ->
  NoDup (map MenuItem.name (groupedItems (processRow acc row))).
Proof.
  intros H. destruct (processRow_names acc row) as [->|[-> [Hn _]]]; [exact H|].
  apply (Permutation_NoDup (l := name (resolve row)
                                 :: map MenuItem.name (groupedItems acc))).
  - apply Permutation_cons_append.
  - now constructor.
Qed.

Lemma fold_rows_NoDup rows : forall acc,
  NoDup (map MenuItem.name (groupedItems acc)) ->
  NoDup (map MenuItem.name (groupedItems (fold_left processRow rows acc))).
Proof.
  induction rows as [|r rows IH]; intros acc H; [exact H|].
  cbn [fold_left]. now apply IH, processRow_NoDup.
Qed.

Lemma fold_rows_names (all rows : list Row) : forall acc,
  (forall r, In r rows -> In r all) ->
  (forall n, In n (map MenuItem.name (groupedItems acc)) ->
     exists row, In row all /\ itemRow row /\ n = name (resolve row)) ->
  forall n, In n (map MenuItem.name (groupedItems (fold_left processRow rows acc))) ->
    exists row, In row all /\ itemRow row /\ n = name (resolve row).
Proof.
  induction rows as [|r rows IH]; intros acc Hsub Hacc; [exact Hacc|].
  cbn [fold_left]. apply IH; [intros x Hx; apply Hsub; now right|].
  intros n Hn. destruct (processRow_names acc r) as [E|[E [_ Hitem]]];
    rewrite E in Hn; [now apply Hacc|].
  apply in_app_or in Hn as [Hn|[<-|[]]]; [now apply Hacc|].
  exists r. split; [apply Hsub; now left|]. now split.
Qed.

Lemma insertByIndex_perm x l : Permutation (insertByIndex x l) (x :: l).
Proof.
  induction l as [|y l IH]; cbn [insertByIndex]; [reflexivity|].
  destruct (fst x <=? fst y)%Z; [reflexivity|].
  rewrite IH. apply perm_swap.
Qed.

Lemma sortByIndex_perm l : Permutation (fold_right insertByIndex [] l) l.
Proof.
  induction l as [|x l IH]; cbn [fold_right]; [reflexivity|].
  now rewrite insertByIndex_perm, IH.
Qed.

(** [Object.values] lists every item once, in some order. *)
Lemma Object_values_perm l : Permutation (Object_values l) l.
Proof.
  unfold Object_values. rewrite sortByIndex_perm.
  unfold indexKeyed, stringKeyed.
  induction l as [|x l IH]; [reflexivity|].
  cbn [flat_map filter]. destruct (arrayIndex (MenuItem.name x)).
  - cbn. now rewrite IH.
  - cbn [app map]. rewrite <- Permutation_middle. now rewrite IH.
Qed.

(** No two items of a result have the same name. *)
Lemma items_names_unique (wb : Workbook) :
  NoDup (map MenuItem.name (MenuData.items (menuData (processWorkbook wb)))).
Proof.
  cbn [menuData MenuData.items].
  apply (Permutation_NoDup
           (l := map MenuItem.name (groupedItems (processWorkbook wb)))).
  - apply Permutation_map. symmetry. apply Object_values_perm.
  - rewrite processWorkbook_rows. apply fold_rows_NoDup. constructor.
Qed.

(** The name of every item of a result is the trimmed name cell of an item
    row of the workbook. *)
Lemma items_names_from_rows (wb : Workbook) (it : MenuItem.t) :
  In it (MenuData.items (menuData (processWorkbook wb))) ->
  exists row,
    In row (allRows wb) /\ itemRow row
    /\ MenuItem.name it = name (resolve row).
Proof.
  cbn [menuData MenuData.items]. intros Hin.
  apply (Permutation_in _ (Object_values_perm _)) in Hin.
  apply (in_map MenuItem.name) in Hin.
  rewrite processWorkbook_rows in Hin.
  apply (fold_rows_names (allRows wb) (allRows wb) emptyAcc) in Hin.
  - exact Hin.
  - intros r Hr. exact Hr.
  - intros n [].
Qed.

(** A row without a truthy name cell changes neither the items nor the
    configuration. *)
Lemma nameless_row_no_effect (acc : Acc) (row : Row) :
  truthy (rawName (resolve row)) = false -> processRow acc row = acc.
Proof.
  intros H. destruct (isConfigRow (resolve row)) eqn:Hcfg.
  - rewrite (processRow_config _ _ Hcfg).
    assert (Hn : name (resolve row) = "").
    { unfold resolve in *. cbv zeta in *. cbn [rawName name] in *.
      unfold or_else. now rewrite H. }
    unfold extractConfig, configKeyOf. rewrite Hn.
    destruct acc; reflexivity.
  - now apply processRow_nameless.
Qed.

(** C8 fails on the code: a row whose name cell is a single space passes
    the [!rawName] test, its trimmed name is empty, and the result holds an
    item with the empty name. *)
Theorem blank_name_makes_item :
  fetchMenuFromSheet (Some (mkResponse None true (Some [blankNameSheet])))
  = Fulfilled
      (MenuData.mk
         [ MenuItem.mk "item-0" "General" "" 10 None
             "https://picsum.photos/seed//300/200" false [] ]
         AppConfig.empty).
Proof. vm_compute. reflexivity. Qed.

(** ** Option merging *)

Lemma find_updateFirst {A} (p : A -> bool) (f : A -> A) (l : list A) :
  (forall x, p (f x) = p x) ->
  find p (updateFirst p f l) = option_map f (find p l).
Proof.
  intros Hf. induction l as [|x l IH]; [reflexivity|].
  cbn [updateFirst find]. destruct (p x) eqn:E; cbn [find].
  - now rewrite Hf, E.
  - now rewrite E.
Qed.

Lemma updateFirst_twice {A} (p : A -> bool) (f g : A -> A) (l : list A) :
  (forall x, p (f x) = p x) ->
  updateFirst p g (updateFirst p f l) = updateFirst p (fun x => g (f x)) l.
Proof.
  intros Hf. induction l as [|x l IH]; [reflexivity|].
  cbn [updateFirst]. destruct (p x) eqn:E; cbn [updateFirst].
  - now rewrite Hf, E.
  - now rewrite E, IH.
Qed.

Lemma updateFirst_ext {A} (p : A -> bool) (f g : A -> A) (l : list A) :
  (forall x, In x l -> p x = true -> f x = g x) ->
  updateFirst p f l = updateFirst p g l.
Proof.
  induction l as [|x l IH]; intros H; [reflexivity|].
  cbn [updateFirst]. destruct (p x) eqn:E.
  - now rewrite H by (auto; now left).
  - rewrite IH; [reflexivity|]. intros y Hy. apply H. now right.
Qed.

Lemma updateFirst_split {A} (p : A -> bool) (f : A -> A) (l : list A) (x : A) :
  find p l = Some x ->
  exists pre post,
    l = (pre ++ x :: post)%list
    /\ updateFirst p f l = (pre ++ f x :: post)%list
    /\ find p pre = None.
Proof.
  induction l as [|y l IH]; [discriminate|].
  cbn [find updateFirst]. destruct (p y) eqn:E.
  - intros H. injection H as ->. now exists [], l.
  - intros H. destruct (IH H) as [pre [post [-> [-> Hn]]]].
    exists (y :: pre), post. cbn [find app]. now rewrite E.
Qed.

Lemma find_app_last {A} (p : A -> bool) (l : list A) (x : A) :
  find p l = None -> p x = true -> find p (l ++ [x]) = Some x.
Proof.
  induction l as [|y l IH]; cbn [find app]; intros H Hx.
  - now rewrite Hx.
  - destruct (p y); [discriminate|]. now apply IH.
Qed.

Lemma updateFirst_app_last {A} (p : A -> bool) (f : A -> A) (l : list A) (x : A) :
  find p l = None -> p x = true ->
  updateFirst p f (l ++ [x]) = (l ++ [f x])%list.
Proof.
  induction l as [|y l IH]; cbn [find app updateFirst]; intros H Hx.
  - now rewrite Hx.
  - destruct (p y); [discriminate|]. now rewrite IH.
Qed.


Lemma pushChoice_name nc o : MenuOption.name (pushChoice nc o) = MenuOption.name o.
Proof. unfold pushChoice. now destruct (existsb _ _). Qed.

Lemma pushChoice_twice c1 c2 o :
  MenuChoice.name c1 = MenuChoice.name c2 ->
  pushChoice c2 (pushChoice c1 o) = pushChoice c1 o.
Proof.
  intros Hn. unfold pushChoice. rewrite <- Hn.
  destruct (existsb _ (MenuOption.choices o)) eqn:E.
  - now rewrite E.
  - cbn [MenuOption.choices MenuOption.name].
    rewrite existsb_app. cbn [existsb].
    now rewrite String.eqb_refl, orb_true_r.
Qed.

Lemma mergeRowBased_twice g c1 c2 opts :
  MenuChoice.name c1 = MenuChoice.name c2 ->
  mergeRowBased g c2 (mergeRowBased g c1 opts) = mergeRowBased g c1 opts.
Proof.
  intros Hn. unfold mergeRowBased. cbv zeta.
  fold (isGroup g).
  destruct (find (isGroup g) opts) as [o|] eqn:E.
  - rewrite find_updateFirst
      by (intros x; unfold isGroup; now rewrite pushChoice_name).
    rewrite E. cbn [option_map].
    rewrite updateFirst_twice
      by (intros x; unfold isGroup; now rewrite pushChoice_name).
    apply updateFirst_ext. intros x _ _. now apply pushChoice_twice.
  - assert (Hg : isGroup g (pushChoice c1 (MenuOption.mk g [])) = true).
    { unfold isGroup. rewrite pushChoice_name. apply String.eqb_refl. }
    rewrite (find_app_last _ _ _ E Hg), (updateFirst_app_last _ _ _ _ E Hg).
    now rewrite pushChoice_twice.
Qed.

Lemma mergeOptions_rowBased row g c opts :
  rowBased row = Some (g, c) -> mergeOptions row opts = mergeRowBased g c opts.
Proof. intros H. unfold mergeOptions. now rewrite H. Qed.

Lemma setOptions_setOptions it o1 o2 :
  setOptions (setOptions it o1) o2 = setOptions it o2.
Proof. reflexivity. Qed.

Lemma hasName_setOptions n it o : hasName n (setOptions it o) = hasName n it.
Proof. reflexivity. Qed.

Lemma lookup_own l n it : find (hasName n) l = Some it -> lookup l n = Own it.
Proof. intros H. unfold lookup. now rewrite H. Qed.

Lemma hasName_newItem row acc0 :
  hasName (name (resolve row))
    (setOptions (newItem row (resolve row) acc0) (mergeOptions row [])) = true.
Proof. unfold hasName. cbn. apply String.eqb_refl. Qed.

(** A second row-based row for the same item, group and choice name leaves
    the accumulator as the first one left it. *)
Lemma processRow_rowBased_twice acc r1 r2 g c1 c2 :
  itemRow r1 -> itemRow r2 ->
  name (resolve r2) = name (resolve r1) ->
  rowBased r1 = Some (g, c1) -> rowBased r2 = Some (g, c2) ->
  MenuChoice.name c1 = MenuChoice.name c2 ->
  processRow (processRow acc r1) r2 = processRow acc r1.
Proof.
  intros H1 H2 Hn Hr1 Hr2 Hc.
  rewrite (processRow_item _ r2 H2), (processRow_item _ r1 H1), Hn.
  set (n := name (resolve r1)).
  destruct (lookup (groupedItems acc) n) eqn:El.
  - (* the item exists *)
    unfold lookup in El.
    destruct (find (hasName n) (groupedItems acc)) as [it|] eqn:Ef;
      [|destruct (existsb _ _); discriminate].
    cbn [groupedItems config].
    rewrite (lookup_own _ _ (setOptions it (mergeOptions r1 (MenuItem.options it)))).
    + f_equal. rewrite updateFirst_twice by (intros x; apply hasName_setOptions).
      apply updateFirst_ext. intros x _ _. cbn [setOptions MenuItem.options].
      rewrite (mergeOptions_rowBased _ _ _ _ Hr2), (mergeOptions_rowBased _ _ _ _ Hr1).
      now rewrite mergeRowBased_twice.
    + rewrite find_updateFirst by (intros x; apply hasName_setOptions).
      now rewrite Ef.
  - now rewrite El.
  - apply lookup_missing in El. cbn [groupedItems config].
    pose proof (hasName_newItem r1 (groupedItems acc)) as Hh. fold n in Hh.
    rewrite (lookup_own _ _ _ (find_app_last _ _ _ El Hh)).
    rewrite (updateFirst_app_last _ _ _ _ El Hh). f_equal. f_equal. f_equal.
    rewrite setOptions_setOptions. cbn [setOptions MenuItem.options]. f_equal.
    rewrite (mergeOptions_rowBased _ _ _ _ Hr2), (mergeOptions_rowBased _ _ _ _ Hr1).
    now apply mergeRowBased_twice.
Qed.

Lemma filter_nil_existsb {A} (p : A -> bool) (l : list A) :
  List.length (filter p l) = 0 -> existsb p l = false.
Proof.
  induction l as [|x l IH]; [reflexivity|].
  cbn [filter existsb]. destruct (p x); [discriminate|]. exact IH.
Qed.

Lemma existsb_filter_length {A} (p : A -> bool) (l : list A) :
  existsb p l = true -> 1 <= List.length (filter p l).
Proof.
  induction l as [|x l IH]; [discriminate|].
  cbn [filter existsb]. destruct (p x); cbn [List.length orb]; [lia|exact IH].
Qed.

(** After a row-based merge of [c] into the group [g], the group exists and
    holds one choice of that name, or as many as it held before. *)
Lemma mergeRowBased_count g c opts :
  countIn (MenuChoice.name c) (find (isGroup g) (mergeRowBased g c opts))
  = Nat.max 1 (countIn (MenuChoice.name c) (find (isGroup g) opts)).
Proof.
  unfold mergeRowBased. cbv zeta. fold (isGroup g).
  destruct (find (isGroup g) opts) as [o|] eqn:E.
  - rewrite find_updateFirst
      by (intros x; unfold isGroup; now rewrite pushChoice_name).
    rewrite E. cbn [option_map countIn].
    unfold pushChoice. fold (namedChoice (MenuChoice.name c)).
    destruct (existsb _ (MenuOption.choices o)) eqn:Ex.
    + apply existsb_filter_length in Ex. lia.
    + cbn [MenuOption.choices]. rewrite filter_app, length_app. cbn [filter].
      unfold namedChoice at 2. rewrite String.eqb_refl. cbn [List.length].
      assert (List.length (filter (namedChoice (MenuChoice.name c))
                             (MenuOption.choices o)) = 0); [|lia].
      destruct (filter _ (MenuOption.choices o)) as [|x l] eqn:Ef; [reflexivity|].
      assert (Hin : In x (filter (namedChoice (MenuChoice.name c))
                            (MenuOption.choices o))) by (rewrite Ef; now left).
      apply filter_In in Hin as [Hin Hp].
      assert (existsb (namedChoice (MenuChoice.name c)) (MenuOption.choices o)
              = true) by (apply existsb_exists; eauto).
      congruence.
  - assert (Hg : isGroup g (pushChoice c (MenuOption.mk g [])) = true).
    { unfold isGroup. rewrite pushChoice_name. apply String.eqb_refl. }
    rewrite (find_app_last _ _ _ E Hg).
    cbn. unfold namedChoice. now rewrite String.eqb_refl.
Qed.

(** C4, as stated, fails: after a comma-separated row whose list repeats
    the token S, the group Size of the item holds two choices named S, and
    two row-based rows for that item, group and choice leave both there:
    two entries, not one.  And two such rows under the name constructor,
    which every object inherits, make no item at all. *)
Lemma repeated_token_leaves_two_choices :
  let r0 := [ ("Category", VStr "Main"); ("Name", VStr "Bibimbap");
              ("option_header", VStr "Size"); ("option_choices", VStr "S, S") ] in
  let r1 := [ ("Category", VStr "Main"); ("Name", VStr "Bibimbap");
              ("option_group_name", VStr "Size"); ("option_name", VStr "S");
              ("price_modifier", VNum 0) ] in
  let r2 := [ ("Category", VStr "Main"); ("Name", VStr "Bibimbap");
              ("option_group_name", VStr "Size"); ("option_name", VStr "S");
              ("price_modifier", VNum 10) ] in
  let c1 := [ ("Category", VStr "Main"); ("Name", VStr "constructor");
              ("option_group_name", VStr "Size"); ("option_name", VStr "S") ] in
  (itemRow r1 /\ itemRow r2
   /\ name (resolve r1) = "Bibimbap" /\ name (resolve r2) = "Bibimbap"
   /\ rowBased r1 = Some ("Size", MenuChoice.mk "S" 0)
   /\ rowBased r2 = Some ("Size", MenuChoice.mk "S" 10)
   /\ choiceCount (groupedItems (fold_left processRow [r0; r1; r2] emptyAcc))
        "Bibimbap" "Size" "S" = 2)
  /\ (itemRow c1 /\ rowBased c1 = Some ("Size", MenuChoice.mk "S" 0)
      /\ groupedItems (fold_left processRow [c1; c1] emptyAcc) = []).
Proof.
  cbv zeta. repeat split; vm_compute; reflexivity.
Qed.

(** C4 (amended): two row-based rows of the same name with the same group
    name and the same choice name, whatever their modifiers, leave the
    accumulator exactly as the first row alone leaves it: re-adding an
    existing choice adds no entry.  When that name is the name of an item,
    its group holds, after both rows, exactly one choice of that name if
    it held at most one before these rows; in general it holds one, or as
    many as it held before. *)
Theorem row_based_option_twice (acc : Acc) (r1 r2 : Row) (n g : string)
    (c1 c2 : MenuChoice.t) :
  itemRow r1 -> itemRow r2 ->
  name (resolve r1) = n -> name (resolve r2) = n ->
  rowBased r1 = Some (g, c1) -> rowBased r2 = Some (g, c2) ->
  MenuChoice.name c1 = MenuChoice.name c2 ->
  processRow (processRow acc r1) r2 = processRow acc r1
  /\ (find (hasName n) (groupedItems (processRow acc r1)) <> None ->
      (choiceCount (groupedItems acc) n g (MenuChoice.name c1) <= 1 ->
       choiceCount (groupedItems (processRow (processRow acc r1) r2)) n g
         (MenuChoice.name c1) = 1)
      /\ choiceCount (groupedItems (processRow (processRow acc r1) r2)) n g
           (MenuChoice.name c1)
         = Nat.max 1 (choiceCount (groupedItems acc) n g (MenuChoice.name c1))).
Proof.
  intros H1 H2 Hn1 Hn2 Hr1 Hr2 Hc.
  assert (Hidem : processRow (processRow acc r1) r2 = processRow acc r1).
  { apply (processRow_rowBased_twice acc r1 r2 g c1 c2); auto. congruence. }
  split; [exact Hidem|]. rewrite Hidem.
  rewrite (processRow_item _ r1 H1), Hn1. intros Hown.
  match goal with
  | |- _ /\ ?A = ?B =>
      assert (E : A = B); [|split; [intros Hle; rewrite E; lia|exact E]]
  end.
  unfold choiceCount.
  destruct (lookup (groupedItems acc) n) eqn:El;
    [|unfold lookup in El;
      destruct (find (hasName n) (groupedItems acc)); [discriminate|];
      contradiction|].
  - unfold lookup in El.
    destruct (find (hasName n) (groupedItems acc)) as [it|] eqn:Ef;
      [|destruct (existsb _ _); discriminate].
    cbn [groupedItems].
    rewrite find_updateFirst by (intros x; apply hasName_setOptions).
    rewrite Ef. cbn [option_map setOptions MenuItem.options].
    rewrite (mergeOptions_rowBased _ _ _ _ Hr1).
    apply mergeRowBased_count.
  - apply lookup_missing in El. rewrite El. cbn [groupedItems].
    pose proof (hasName_newItem r1 (groupedItems acc)) as Hh. rewrite Hn1 in Hh.
    rewrite (find_app_last _ _ _ El Hh). cbn [setOptions MenuItem.options].
    rewrite (mergeOptions_rowBased _ _ _ _ Hr1).
    apply (mergeRowBased_count g c1 []).
Qed.

Lemma row_based_option_twice_witness :
  let r1 := [ ("Category", VStr "Main"); ("Name", VStr "Bibimbap");
              ("option_group_name", VStr "Protein");
              ("option_name", VStr "Pork"); ("price_modifier", VNum 0) ] in
  let r2 := [ ("Category", VStr "Main"); ("Name", VStr " Bibimbap");
              ("option_group_name", VStr "Protein ");
              ("option_name", VStr "Pork"); ("price_modifier", VNum 10) ] in
  processRow (processRow emptyAcc r1) r2 = processRow emptyAcc r1
  /\ choiceCount (groupedItems (processRow (processRow emptyAcc r1) r2))
       "Bibimbap" "Protein" "Pork" = 1.
Proof.
  intros r1 r2.
  assert (I1 : itemRow r1) by (split; vm_compute; reflexivity).
  assert (I2 : itemRow r2) by (split; vm_compute; reflexivity).
  assert (N1 : name (resolve r1) = "Bibimbap") by (vm_compute; reflexivity).
  assert (N2 : name (resolve r2) = "Bibimbap") by (vm_compute; reflexivity).
  assert (R1 : rowBased r1 = Some ("Protein", MenuChoice.mk "Pork" 0))
    by (vm_compute; reflexivity).
  assert (R2 : rowBased r2 = Some ("Protein", MenuChoice.mk "Pork" 10))
    by (vm_compute; reflexivity).
  destruct (row_based_option_twice emptyAcc r1 r2 _ _ _ _ I1 I2 N1 N2 R1 R2
              eq_refl) as [Hi Hc].
  split; [exact Hi|].
  cbn [MenuChoice.name] in Hc.
  destruct Hc as [Hone _]; [vm_compute; discriminate|].
  apply Hone. vm_compute. lia.
Defined.

(** ** Same-name rows *)

Lemma grown_refl l : grown l l.
Proof.
  induction l as [|o l IH]; [constructor|].
  apply (grown_cons o o l l []); auto. now rewrite app_nil_r.
Qed.

Lemma grown_app l extra : grown l (l ++ extra).
Proof.
  induction l as [|o l IH]; [constructor|].
  apply (grown_cons o o l (l ++ extra) []); auto. now rewrite app_nil_r.
Qed.

Lemma grown_updateFirst p f l :
  (forall o, MenuOption.name (f o) = MenuOption.name o
             /\ exists more, MenuOption.choices (f o)
                             = (MenuOption.choices o ++ more)%list) ->
  grown l (updateFirst p f l).
Proof.
  intros Hf. induction l as [|o l IH]; [constructor|].
  cbn [updateFirst]. destruct (p o).
  - destruct (Hf o) as [Hn [more Hm]].
    apply (grown_cons o (f o) l l more); auto using grown_refl.
  - apply (grown_cons o o _ _ []); auto. now rewrite app_nil_r.
Qed.

Lemma pushChoice_more nc o :
  exists more,
    MenuOption.choices (pushChoice nc o) = (MenuOption.choices o ++ more)%list.
Proof.
  unfold pushChoice. destruct (existsb _ _).
  - exists []. now rewrite app_nil_r.
  - now exists [nc].
Qed.

Lemma pushChoice_has nc o :
  exists ch, In ch (MenuOption.choices (pushChoice nc o))
             /\ MenuChoice.name ch = MenuChoice.name nc.
Proof.
  unfold pushChoice. destruct (existsb _ _) eqn:E.
  - apply existsb_exists in E as [ch [Hin He]].
    exists ch. split; [exact Hin|]. now apply String.eqb_eq.
  - exists nc. split; [|reflexivity]. cbn. apply in_or_app. right. now left.
Qed.

Lemma fold_pushChoice ncs : forall o,
  MenuOption.name (fold_left (fun g nc => pushChoice nc g) ncs o)
  = MenuOption.name o
  /\ (exists more,
        MenuOption.choices (fold_left (fun g nc => pushChoice nc g) ncs o)
        = (MenuOption.choices o ++ more)%list)
  /\ (forall nc, In nc ncs ->
        exists ch,
          In ch (MenuOption.choices
                   (fold_left (fun g nc => pushChoice nc g) ncs o))
          /\ MenuChoice.name ch = MenuChoice.name nc).
Proof.
  induction ncs as [|nc ncs IH]; intros o; cbn [fold_left].
  - split; [reflexivity|]. split; [exists []; now rewrite app_nil_r|].
    intros nc [].
  - destruct (IH (pushChoice nc o)) as [Hn [[more Hm] Hall]].
    split; [now rewrite Hn, pushChoice_name|]. split.
    + destruct (pushChoice_more nc o) as [more0 Hm0].
      exists (more0 ++ more)%list. now rewrite Hm, Hm0, app_assoc.
    + intros nc' [<-|Hin]; [|now apply Hall].
      destruct (pushChoice_has nc o) as [ch [Hin He]].
      exists ch. split; [|exact He]. rewrite Hm. apply in_or_app. now left.
Qed.

Lemma mergeOptions_grown row opts : grown opts (mergeOptions row opts).
Proof.
  unfold mergeOptions.
  destruct (rowBased row) as [[g c]|].
  - unfold mergeRowBased. cbv zeta. destruct (find _ opts).
    + apply grown_updateFirst. intros o.
      split; [apply pushChoice_name|apply pushChoice_more].
    + apply grown_app.
  - destruct (commaSeparated row) as [[optName toks]|]; [|apply grown_refl].
    unfold mergeCommaSeparated. cbv zeta. destruct (find _ opts).
    + apply grown_updateFirst. intros o.
      destruct (fold_pushChoice (map (fun c => MenuChoice.mk c 0) toks) o)
        as [Hn [Hm _]]. now split.
    + apply grown_app.
Qed.







(** * Further properties of the service *)

(** ** Header detection: bounds *)

Lemma scanRows_range rows n : forall i0,
  scanRows rows n i0 = 0
  \/ (i0 <= scanRows rows n i0 < i0 + n
      /\ 2 <= matchCount (nth (scanRows rows n i0) rows [])).
Proof.
  induction n as [|n IH]; intros i0; [now left|].
  cbn [scanRows].
  destruct (Nat.leb_spec 2 (matchCount (nth i0 rows []))) as [Hge|Hlt].
  - right. split; [lia|exact Hge].
  - destruct (IH (S i0)) as [H|[H1 H2]]; [now left|].
    right. split; [lia|exact H2].
Qed.

(** X1: the detected header index is below 10; on a sheet with rows it is
    the index of one of them; and an index other than 0 is that of a row
    with at least two keyword hits. *)
Theorem headerRowIndex_in_range (rows : list (list value)) :
  headerRowIndex rows < 10
  /\ (rows <> [] -> headerRowIndex rows < List.length rows)
  /\ (headerRowIndex rows <> 0 ->
      2 <= matchCount (nth (headerRowIndex rows) rows [])).
Proof.
  unfold headerRowIndex.
  destruct (scanRows_range rows (Nat.min (List.length rows) 10) 0)
    as [->|[H1 H2]].
  - split; [lia|]. split; [|congruence].
    intros Hne. destruct rows; [contradiction|cbn; lia].
  - split; [lia|]. split; [lia|auto].
Qed.

Lemma headerRowIndex_in_range_witness :
  let rows := [ [VStr "Shop"]; [VStr "Menu"; VStr "Price"]; [VStr "x"] ] in
  headerRowIndex rows < List.length rows
  /\ 2 <= matchCount (nth (headerRowIndex rows) rows []).
Proof.
  intros rows.
  destruct (headerRowIndex_in_range rows) as [_ [H1 H2]].
  split; [apply H1; discriminate|apply H2; vm_compute; discriminate].
Defined.

(** ** Column resolution: soundness and letter case *)

Lemma get_In (row : Row) (k : string) :
  In k (Object_keys row) -> In (k, get row k) row.
Proof.
  induction row as [|[k' v] row IH]; [intros []|].
  cbn [Object_keys map fst get In].
  destruct (String.eqb_spec k' k) as [->|Hne].
  - intros _. now left.
  - intros [H|H]; [contradiction|]. right. now apply IH.
Qed.

Lemma found_some r k : found r = Some k -> r = Some k /\ k <> "".
Proof.
  destruct r as [[|c s]|]; cbn; try discriminate.
  intros H. injection H as <-. split; [reflexivity|discriminate].
Qed.

(** X2: whatever [getValue] returns is undefined or the cell of a column of
    the row whose non-empty header qualifies: it equals a synonym, or it
    contains a synonym and no exclusion. *)
Theorem getValue_from_qualifying_column (row : Row) (keys exclude : list string) :
  getValue row keys exclude = VUndef
  \/ exists k,
       In (k, getValue row keys exclude) row /\ k <> ""
       /\ (equalsSynonym keys k
           \/ (containsOneOf keys k /\ ~ containsOneOf exclude k)).
Proof.
  unfold getValue. cbv zeta.
  destruct (found (find (exactMatch keys) (Object_keys row))) as [k|] eqn:E.
  - right. apply found_some in E as [E Hk]. apply find_some in E as [Hin Hm].
    exists k. split; [now apply get_In|]. split; [exact Hk|].
    left. now apply exactMatch_spec.
  - destruct (found (find (partialMatch keys exclude) (Object_keys row)))
      as [k|] eqn:E'; [|now left].
    right. apply found_some in E' as [E' Hk]. apply find_some in E' as [Hin Hm].
    exists k. split; [now apply get_In|]. split; [exact Hk|].
    right. now apply partialMatch_spec.
Qed.

Lemma lower_ascii_idem c : lower_ascii (lower_ascii c) = lower_ascii c.
Proof.
  destruct c as [[] [] [] [] [] [] [] []]; reflexivity.
Qed.

Lemma toLowerCase_idem s : toLowerCase (toLowerCase s) = toLowerCase s.
Proof.
  induction s as [|c s IH]; [reflexivity|].
  cbn [toLowerCase]. now rewrite lower_ascii_idem, IH.
Qed.

Lemma existsb_lowered (f : string -> bool) (strs : list string) :
  existsb (fun s => f (toLowerCase s)) strs = existsb f (map toLowerCase strs).
Proof.
  induction strs as [|s strs IH]; [reflexivity|].
  cbn [existsb map]. now rewrite IH.
Qed.

Lemma exactMatch_lowered keys keys' k :
  map toLowerCase keys = map toLowerCase keys' ->
  exactMatch keys k = exactMatch keys' k.
Proof.
  intros H. unfold exactMatch.
  rewrite (existsb_lowered (fun s => String.eqb (toLowerCase k) s) keys).
  rewrite (existsb_lowered (fun s => String.eqb (toLowerCase k) s) keys').
  now rewrite H.
Qed.

Lemma partialMatch_lowered keys keys' exclude exclude' k :
  map toLowerCase keys = map toLowerCase keys' ->
  map toLowerCase exclude = map toLowerCase exclude' ->
  partialMatch keys exclude k = partialMatch keys' exclude' k.
Proof.
  intros H H'. unfold partialMatch. cbv zeta.
  rewrite (existsb_lowered (fun s => includes (toLowerCase k) s) keys).
  rewrite (existsb_lowered (fun s => includes (toLowerCase k) s) keys').
  rewrite (existsb_lowered (fun s => includes (toLowerCase k) s) exclude).
  rewrite (existsb_lowered (fun s => includes (toLowerCase k) s) exclude').
  now rewrite H, H'.
Qed.

Lemma find_ext_all {A} (p q : A -> bool) (l : list A) :
  (forall x, p x = q x) -> find p l = find q l.
Proof.
  intros H. induction l as [|x l IH]; [reflexivity|].
  cbn [find]. now rewrite H, IH.
Qed.

(** X3: synonym lists, and exclusion lists, that agree up to letter case
    resolve every row identically. *)
Theorem getValue_ignores_case_of_lists (row : Row)
    (keys keys' exclude exclude' : list string) :
  map toLowerCase keys = map toLowerCase keys' ->
  map toLowerCase exclude = map toLowerCase exclude' ->
  getValue row keys exclude = getValue row keys' exclude'.
Proof.
  intros H H'. unfold getValue. cbv zeta.
  rewrite (find_ext_all (exactMatch keys) (exactMatch keys'))
    by (intros x; now apply exactMatch_lowered).
  rewrite (find_ext_all (partialMatch keys exclude)
             (partialMatch keys' exclude'))
    by (intros x; now apply partialMatch_lowered).
  reflexivity.
Qed.

Lemma getValue_ignores_case_of_lists_witness :
  getValue [("price per dish", VNum 90); ("Option Price", VNum 5)]
    ["PRICE"] ["Option"]
  = getValue [("price per dish", VNum 90); ("Option Price", VNum 5)]
      ["price"] ["option"].
Proof.
  apply getValue_ignores_case_of_lists; reflexivity.
Defined.

(** ** Empty sheets *)

Lemma fold_rows_nil (wb : Workbook) :
  Forall (fun sheet => rawData sheet = []) wb -> allRows wb = [].
Proof.
  induction 1 as [|sheet wb H _ IH]; [reflexivity|].
  unfold allRows in *. cbn [flat_map]. now rewrite H, IH.
Qed.

(** X4: a workbook whose sheets all are without rows, or without row
    objects below the header row, gives the same empty result as a failed
    fetch. *)
Theorem empty_sheets_give_empty_result (wb : Workbook) (ct : option string) :
  Forall (fun sheet => aoa sheet = []
                       \/ objects sheet (headerRowIndex (aoa sheet)) = []) wb ->
  ct = None \/ (exists c, ct = Some c /\ includes c "text/html" = false) ->
  fetchMenuFromSheet (Some (mkResponse ct true (Some wb))) = Fulfilled emptyResult.
Proof.
  intros Hwb Hct.
  assert (Hrows : allRows wb = []).
  { apply fold_rows_nil. eapply Forall_impl; [|exact Hwb].
    intros sheet [H|H]; unfold rawData; [now rewrite H|].
    destruct (aoa sheet); [reflexivity|exact H]. }
  unfold fetchMenuFromSheet, tryBlock. cbn [content_type ok workbook negb].
  rewrite processWorkbook_rows, Hrows.
  destruct Hct as [->|[c [-> Hc]]]; [reflexivity|].
  rewrite Hc, andb_false_r. reflexivity.
Qed.

Lemma empty_sheets_give_empty_result_witness :
  fetchMenuFromSheet
    (Some (mkResponse
             (Some "application/vnd.openxmlformats-officedocument.spreadsheetml.sheet")
             true
             (Some [ mkSheet [] (fun _ => [[("Name", VStr "Ramen")]]);
                     mkSheet [[VStr "Name"; VStr "Price"]] (fun _ => []) ])))
  = Fulfilled emptyResult.
Proof.
  apply empty_sheets_give_empty_result.
  - apply Forall_cons; [left; reflexivity|].
    apply Forall_cons; [right; vm_compute; reflexivity|]. constructor.
  - right. eexists. split; [reflexivity|vm_compute; reflexivity].
Defined.

(** ** Menu and configuration are extracted independently *)

Lemma processRow_config_items acc row :
  isConfig row = true -> groupedItems (processRow acc row) = groupedItems acc.
Proof. intros H. now rewrite (processRow_config _ _ H). Qed.

Lemma processRow_items_indep acc1 acc2 row :
  groupedItems acc1 = groupedItems acc2 ->
  groupedItems (processRow acc1 row) = groupedItems (processRow acc2 row).
Proof.
  intros H. unfold processRow. cbv zeta. rewrite H.
  destruct (isConfigRow (resolve row)); [reflexivity|].
  destruct (negb (truthy (rawName (resolve row)))); [exact H|].
  destruct (lookup (groupedItems acc2) (name (resolve row)));
    [reflexivity|exact H|reflexivity].
Qed.

Lemma processRow_config_indep acc1 acc2 row :
  config acc1 = config acc2 ->
  config (processRow acc1 row) = config (processRow acc2 row).
Proof.
  intros H. destruct (isConfigRow (resolve row)) eqn:E.
  - rewrite !(processRow_config _ _ E). cbn [config]. now rewrite H.
  - now rewrite !processRow_item_config.
Qed.

Lemma fold_config_only rows : forall acc1 acc2,
  config acc1 = config acc2 ->
  config (fold_left processRow rows acc1)
  = config (fold_left processRow (filter isConfig rows) acc2).
Proof.
  induction rows as [|r rows IH]; intros acc1 acc2 H; [exact H|].
  cbn [fold_left filter]. destruct (isConfig r) eqn:E.
  - cbn [fold_left]. apply IH. now apply processRow_config_indep.
  - apply IH. unfold isConfig in E. now rewrite processRow_item_config.
Qed.

Lemma fold_items_only rows : forall acc1 acc2,
  groupedItems acc1 = groupedItems acc2 ->
  groupedItems (fold_left processRow rows acc1)
  = groupedItems
      (fold_left processRow (filter (fun r => negb (isConfig r)) rows) acc2).
Proof.
  induction rows as [|r rows IH]; intros acc1 acc2 H; [exact H|].
  cbn [fold_left filter]. destruct (isConfig r) eqn:E; cbn [negb].
  - apply IH. now rewrite processRow_config_items.
  - cbn [fold_left]. apply IH. now apply processRow_items_indep.
Qed.

(** X5: the configuration of a result is that of the setting rows alone,
    and its items are those of the other rows alone: removing every menu
    row changes no setting, removing every setting row changes no item. *)
Theorem menu_and_config_independent (wb : Workbook) :
  MenuData.config (menuData (processWorkbook wb))
  = config (fold_left processRow (filter isConfig (allRows wb)) emptyAcc)
  /\ MenuData.items (menuData (processWorkbook wb))
     = Object_values
         (groupedItems
            (fold_left processRow
               (filter (fun r => negb (isConfig r)) (allRows wb)) emptyAcc)).
Proof.
  cbn [menuData MenuData.config MenuData.items]. rewrite processWorkbook_rows.
  split; [now apply fold_config_only|].
  f_equal. now apply fold_items_only.
Qed.

(** ** Item ids *)

Lemma ofZ_inj (a b : Z) : ofZ a = ofZ b -> a = b.
Proof.
  unfold ofZ. intros H. apply DecimalZ.to_int_inj.
  assert (Hn : forall z, Z.to_int z <> Decimal.Pos Decimal.Nil
                         /\ Z.to_int z <> Decimal.Neg Decimal.Nil).
  { intros [|p|p]; cbn; split; try discriminate;
      intros E; injection E as E; now apply Unsigned.to_uint_nonnil in E. }
  apply (f_equal NilZero.int_of_string) in H.
  rewrite !NilZero.isi in H by apply Hn. now injection H.
Qed.

Lemma idOf_inj i j : idOf i = idOf j -> i = j.
Proof.
  unfold idOf. intros H. cbn in H. injection H as H.
  apply ofZ_inj in H. lia.
Qed.

Lemma map_id_updateFirst (p : MenuItem.t -> bool) (f : MenuItem.t -> MenuItem.t)
    (l : list MenuItem.t) :
  (forall it, MenuItem.id (f it) = MenuItem.id it) ->
  map MenuItem.id (updateFirst p f l) = map MenuItem.id l.
Proof.
  intros Hf. induction l as [|x l IH]; [reflexivity|].
  cbn [updateFirst]. destruct (p x); cbn [map]; now rewrite ?Hf, ?IH.
Qed.

Lemma processRow_ids acc row :
  map MenuItem.id (groupedItems acc)
  = map idOf (seq 0 (List.length (groupedItems acc))) ->
  map MenuItem.id (groupedItems (processRow acc row))
  = map idOf (seq 0 (List.length (groupedItems (processRow acc row)))).
Proof.
  intros H. unfold processRow. cbv zeta.
  destruct (isConfigRow (resolve row)); [exact H|].
  destruct (negb (truthy (rawName (resolve row)))); [exact H|].
  destruct (lookup (groupedItems acc) (name (resolve row))); [|exact H|].
  - cbn [groupedItems].
    rewrite map_id_updateFirst by reflexivity.
    rewrite <- (length_map MenuItem.id (updateFirst _ _ _)).
    rewrite map_id_updateFirst by reflexivity.
    now rewrite length_map.
  - cbn [groupedItems]. rewrite length_app, map_app, H. cbn [List.length].
    rewrite Nat.add_1_r, seq_S, map_app. reflexivity.
Qed.

Lemma fold_rows_ids rows : forall acc,
  map MenuItem.id (groupedItems acc)
  = map idOf (seq 0 (List.length (groupedItems acc))) ->
  map MenuItem.id (groupedItems (fold_left processRow rows acc))
  = map idOf (seq 0 (List.length (groupedItems (fold_left processRow rows acc)))).
Proof.
  induction rows as [|r rows IH]; intros acc H; [exact H|].
  cbn [fold_left]. now apply IH, processRow_ids.
Qed.

(** X6: the item created in position i of a run has the id item-i, and no
    two items of a result have the same id. *)
Theorem item_ids_by_position (wb : Workbook) :
  (forall i it,
     nth_error (groupedItems (processWorkbook wb)) i = Some it ->
     MenuItem.id it = idOf i)
  /\ NoDup (map MenuItem.id (MenuData.items (menuData (processWorkbook wb)))).
Proof.
  assert (H : map MenuItem.id (groupedItems (processWorkbook wb))
              = map idOf (seq 0 (List.length (groupedItems (processWorkbook wb))))).
  { rewrite processWorkbook_rows. now apply fold_rows_ids. }
  split.
  - intros i it Hi.
    pose proof (map_nth_error MenuItem.id _ _ Hi) as Hm. rewrite H in Hm.
    assert (Hlt : i < List.length (groupedItems (processWorkbook wb)))
      by (apply nth_error_Some; congruence).
    rewrite (map_nth_error idOf i (seq 0 _) (d := i)) in Hm.
    + now injection Hm.
    + rewrite nth_error_nth' with (d := 0) by (now rewrite length_seq).
      now rewrite seq_nth.
  - cbn [menuData MenuData.items].
    apply (Permutation_NoDup
             (l := map MenuItem.id (groupedItems (processWorkbook wb)))).
    + apply Permutation_map. symmetry. apply Object_values_perm.
    + rewrite H. apply Finite.Injective_map_NoDup; [|apply seq_NoDup].
      intros i j. apply idOf_inj.
Qed.

Lemma item_ids_by_position_witness :
  let wb := [ mkSheet [[VStr "Name"]; [VStr "7"]; [VStr "Ramen"]]
                (fun _ => [ [("Name", VStr "Ramen")]; [("Name", VNum 7)];
                            [("Name", VStr "Ramen")] ]) ] in
  exists it,
    nth_error (groupedItems (processWorkbook wb)) 1 = Some it
    /\ MenuItem.name it = "7" /\ MenuItem.id it = idOf 1.
Proof.
  intros wb. eexists. split; [vm_compute; reflexivity|].
  split; [reflexivity|].
  apply (proj1 (item_ids_by_position wb) 1). vm_compute. reflexivity.
Defined.

(** ** The order of the result *)

Lemma Forall_perm {A} (P : A -> Prop) (l l' : list A) :
  Permutation l l' -> Forall P l -> Forall P l'.
Proof.
  intros Hp H. apply Forall_forall. intros x Hx.
  rewrite Forall_forall in H. apply H.
  apply (Permutation_in _ (Permutation_sym Hp)). exact Hx.
Qed.

Lemma insertByIndex_sorted x l :
  StronglySorted (fun a b : Z * MenuItem.t => (fst a <= fst b)%Z) l ->
  StronglySorted (fun a b : Z * MenuItem.t => (fst a <= fst b)%Z)
    (insertByIndex x l).
Proof.
  induction 1 as [|y l Hs IH Hall]; cbn [insertByIndex].
  - constructor; constructor.
  - destruct (Z.leb_spec (fst x) (fst y)) as [Hle|Hgt].
    + constructor; [now constructor|]. constructor; [exact Hle|].
      eapply Forall_impl; [|exact Hall]. cbn. intros a Ha. lia.
    + constructor; [exact IH|].
      apply (Forall_perm _ (x :: l)).
      * symmetry. apply insertByIndex_perm.
      * constructor; [lia|exact Hall].
Qed.

Lemma sortByIndex_sorted l :
  StronglySorted (fun a b : Z * MenuItem.t => (fst a <= fst b)%Z)
    (fold_right insertByIndex [] l).
Proof.
  induction l as [|x l IH]; cbn [fold_right]; [constructor|].
  now apply insertByIndex_sorted.
Qed.

Lemma indexKeyed_index l :
  Forall (fun p => indexOf (snd p) = Some (fst p)) (indexKeyed l).
Proof.
  unfold indexKeyed, indexOf.
  induction l as [|x l IH]; cbn [flat_map]; [constructor|].
  destruct (arrayIndex (MenuItem.name x)) eqn:E; cbn [app]; [|exact IH].
  constructor; [exact E|exact IH].
Qed.

Lemma ascending_map (l : list (Z * MenuItem.t)) :
  Forall (fun p => indexOf (snd p) = Some (fst p)) l ->
  StronglySorted (fun a b : Z * MenuItem.t => (fst a <= fst b)%Z) l ->
  ascending (map snd l).
Proof.
  unfold ascending. intros Hidx Hs.
  induction Hs as [|p l Hs IH Hall]; cbn [map]; [constructor|].
  inversion Hidx as [|? ? Hp Hl]; subst.
  constructor; [now apply IH|].
  apply Forall_map. rewrite Forall_forall in *. intros q Hq.
  rewrite Hp, (Hl q Hq). now apply Hall.
Qed.

Lemma stringKeyed_all l :
  Forall (fun it => indexOf it = None) l -> stringKeyed l = l.
Proof.
  unfold stringKeyed, indexOf. induction 1 as [|x l H _ IH]; [reflexivity|].
  cbn [filter]. now rewrite H, IH.
Qed.

Lemma indexKeyed_none l :
  Forall (fun it => indexOf it = None) l -> indexKeyed l = [].
Proof.
  unfold indexKeyed, indexOf. induction 1 as [|x l H _ IH]; [reflexivity|].
  cbn [flat_map]. now rewrite H, IH.
Qed.

(** X7: the items of a result are the accumulated items in this order:
    first those whose name is the numeral of an array index, in ascending
    numeric order, then the others in the order of their creation.  When no
    name is such a numeral the result is in creation order. *)
Theorem Object_values_order (l : GroupedItems) :
  (exists numbered,
     Object_values l = (numbered ++ stringKeyed l)%list
     /\ ascending numbered
     /\ Permutation numbered (map snd (indexKeyed l))
     /\ Forall (fun it => indexOf it = None) (stringKeyed l))
  /\ (Forall (fun it => indexOf it = None) l -> Object_values l = l).
Proof.
  split.
  - exists (map snd (fold_right insertByIndex [] (indexKeyed l))).
    split; [reflexivity|]. split; [|split].
    + apply ascending_map; [|apply sortByIndex_sorted].
      apply (Forall_perm _ (indexKeyed l));
        [symmetry; apply sortByIndex_perm|apply indexKeyed_index].
    + apply Permutation_map, sortByIndex_perm.
    + unfold stringKeyed, indexOf. apply Forall_forall. intros it Hin.
      apply filter_In in Hin as [_ H].
      now destruct (arrayIndex (MenuItem.name it)).
  - intros H. unfold Object_values.
    now rewrite (indexKeyed_none _ H), (stringKeyed_all _ H).
Qed.

Lemma Object_values_order_witness :
  let wb := [ mkSheet [[VStr "Name"]; [VStr "Ramen"]; [VStr "Kimbap"]]
                (fun _ => [ [("Name", VStr "Ramen")]; [("Name", VStr "Kimbap")] ]) ] in
  map MenuItem.name (MenuData.items (menuData (processWorkbook wb)))
  = ["Ramen"; "Kimbap"].
Proof.
  intros wb. cbn [menuData MenuData.items].
  rewrite (proj2 (Object_values_order _)); [vm_compute; reflexivity|].
  apply Forall_forall. intros it Hin. vm_compute in Hin.
  destruct Hin as [<-|[<-|[]]]; vm_compute; reflexivity.
Defined.

(** ** Items persist through a run *)

Lemma grown_trans a b c : grown a b -> grown b c -> grown a c.
Proof.
  intros Hab. revert c. induction Hab as [added|o o' l l' more Hn Hm Hab IH];
    intros c Hbc; [constructor|].
  inversion Hbc as [|? o'' ? l'' more' Hn' Hm' Hbc']; subst.
  apply (grown_cons o o'' l l'' (more ++ more')); [congruence| |now apply IH].
  now rewrite Hm', Hm, app_assoc.
Qed.

Lemma sameItemGrown_refl it : sameItemGrown it it.
Proof. unfold sameItemGrown. repeat (split; [reflexivity|]). apply grown_refl. Qed.

Lemma sameItemGrown_trans a b c :
  sameItemGrown a b -> sameItemGrown b c -> sameItemGrown a c.
Proof.
  unfold sameItemGrown.
  intros [H1 [H2 [H3 [H4 [H5 [H6 [H7 H8]]]]]]]
         [K1 [K2 [K3 [K4 [K5 [K6 [K7 K8]]]]]]].
  repeat (split; [congruence|]). now apply (grown_trans _ _ _ H8).
Qed.

Lemma Forall2_sameItemGrown_refl l : Forall2 sameItemGrown l l.
Proof. induction l; constructor; auto using sameItemGrown_refl. Qed.

Lemma Forall2_sameItemGrown_trans a b c :
  Forall2 sameItemGrown a b -> Forall2 sameItemGrown b c ->
  Forall2 sameItemGrown a c.
Proof.
  intros Hab. revert c. induction Hab as [|x y a b Hxy Hab IH]; intros c Hbc;
    inversion Hbc; subst; constructor; eauto using sameItemGrown_trans.
Qed.

Lemma evolved_refl l : evolved l l.
Proof.
  exists l, []. split; [now rewrite app_nil_r|apply Forall2_sameItemGrown_refl].
Qed.

Lemma evolved_trans a b c : evolved a b -> evolved b c -> evolved a c.
Proof.
  intros [k1 [a1 [-> H1]]] [k2 [a2 [-> H2]]].
  apply Forall2_app_inv_l in H2 as [k21 [k22 [H21 [H22 ->]]]].
  exists k21, (k22 ++ a2)%list. split; [now rewrite app_assoc|].
  now apply (Forall2_sameItemGrown_trans _ k1).
Qed.

Lemma Forall2_updateFirst p row l :
  Forall2 sameItemGrown l
    (updateFirst p
       (fun it => setOptions it (mergeOptions row (MenuItem.options it))) l).
Proof.
  induction l as [|x l IH]; cbn [updateFirst]; [constructor|].
  destruct (p x).
  - constructor; [|apply Forall2_sameItemGrown_refl].
    unfold sameItemGrown. cbn. repeat (split; [reflexivity|]).
    apply mergeOptions_grown.
  - constructor; [apply sameItemGrown_refl|exact IH].
Qed.

Lemma processRow_evolved acc row :
  evolved (groupedItems acc) (groupedItems (processRow acc row)).
Proof.
  unfold processRow. cbv zeta.
  destruct (isConfigRow (resolve row)); [apply evolved_refl|].
  destruct (negb (truthy (rawName (resolve row)))); [apply evolved_refl|].
  destruct (lookup (groupedItems acc) (name (resolve row)));
    [|apply evolved_refl|]; cbn [groupedItems].
  - eexists _, []. split; [now rewrite app_nil_r|apply Forall2_updateFirst].
  - eexists _, _. split; [reflexivity|apply Forall2_sameItemGrown_refl].
Qed.

Lemma fold_rows_evolved rows : forall acc,
  evolved (groupedItems acc) (groupedItems (fold_left processRow rows acc)).
Proof.
  induction rows as [|r rows IH]; intros acc; [apply evolved_refl|].
  cbn [fold_left].
  eapply evolved_trans; [apply processRow_evolved|apply IH].
Qed.

Lemma Forall2_In_left {A B} (R : A -> B -> Prop) (l : list A) (l' : list B) x :
  Forall2 R l l' -> In x l -> exists y, In y l' /\ R x y.
Proof.
  induction 1 as [|a b l l' Hab _ IH]; [intros []|].
  intros [<-|Hin].
  - exists b. split; [now left|exact Hab].
  - destruct (IH Hin) as [y [Hy HR]]. exists y. split; [now right|exact HR].
Qed.

(** X8: at every point of a run, the items accumulated so far keep, to the
    end of the run, their position, id, category, name, price, description,
    image and spicy flag; their options only gain groups and choices; later
    rows add new items behind them and remove none. *)
Theorem items_only_evolve (wb : Workbook) (before after : list Row) :
  allRows wb = (before ++ after)%list ->
  evolved (groupedItems (fold_left processRow before emptyAcc))
    (groupedItems (processWorkbook wb))
  /\ forall it,
       In it (groupedItems (fold_left processRow before emptyAcc)) ->
       exists it',
         In it' (groupedItems (processWorkbook wb)) /\ sameItemGrown it it'.
Proof.
  intros H.
  assert (He : evolved (groupedItems (fold_left processRow before emptyAcc))
                 (groupedItems (processWorkbook wb))).
  { rewrite processWorkbook_rows, H, fold_left_app. apply fold_rows_evolved. }
  split; [exact He|].
  destruct He as [kept [added [-> HF]]]. intros it Hin.
  destruct (Forall2_In_left _ _ _ _ HF Hin) as [it' [Hin' HR]].
  exists it'. split; [apply in_or_app; now left|exact HR].
Qed.

Lemma items_only_evolve_witness :
  let r1 := [ ("Name", VStr "Bibimbap"); ("Price", VNum 150) ] in
  let r2 := [ ("Name", VStr "Ramen"); ("Price", VNum 90) ] in
  let r3 := [ ("Name", VStr "Bibimbap"); ("Price", VNum 1);
              ("option_header", VStr "Size"); ("option_choices", VStr "S,L") ] in
  let wb := [ mkSheet [[VStr "Name"; VStr "Price"]; []] (fun _ => [r1; r2]);
              mkSheet [[VStr "Name"; VStr "Price"]; []] (fun _ => [r3]) ] in
  evolved (groupedItems (fold_left processRow [r1] emptyAcc))
    (groupedItems (processWorkbook wb)).
Proof.
  intros r1 r2 r3 wb.
  apply (proj1 (items_only_evolve wb [r1] [r2; r3] ltac:(vm_compute; reflexivity))).
Defined.

(** ** Invariants of the options *)

Lemma Forall_updateFirst {A} (Q : A -> Prop) (p : A -> bool) (f : A -> A)
    (l : list A) :
  (forall x, Q x -> Q (f x)) -> Forall Q l -> Forall Q (updateFirst p f l).
Proof.
  intros Hf. induction 1 as [|x l Hx Hl IH]; cbn [updateFirst]; [constructor|].
  destruct (p x); constructor; auto.
Qed.

Section OptionsInvariant.

(** A property [P] of option lists that an empty list has and that the
    option parsing of every admissible row keeps. *)
Variable P : list MenuOption.t -> Prop.
Variable admissible : Row -> Prop.
Hypothesis P_nil : P [].
Hypothesis P_merge :
  forall row opts, admissible row -> P opts -> P (mergeOptions row opts).

Lemma processRow_options acc row :
  admissible row ->
  Forall (fun it => P (MenuItem.options it)) (groupedItems acc) ->
  Forall (fun it => P (MenuItem.options it)) (groupedItems (processRow acc row)).
Proof.
  intros Hrow H. unfold processRow. cbv zeta.
  destruct (isConfigRow (resolve row)); [exact H|].
  destruct (negb (truthy (rawName (resolve row)))); [exact H|].
  destruct (lookup (groupedItems acc) (name (resolve row)));
    [|exact H|]; cbn [groupedItems].
  - apply Forall_updateFirst; [|exact H].
    intros x Hx. cbn. now apply P_merge.
  - apply Forall_app. split; [exact H|].
    constructor; [|constructor]. cbn. now apply P_merge.
Qed.

Lemma fold_rows_options rows : forall acc,
  Forall admissible rows ->
  Forall (fun it => P (MenuItem.options it)) (groupedItems acc) ->
  Forall (fun it => P (MenuItem.options it))
    (groupedItems (fold_left processRow rows acc)).
Proof.
  induction rows as [|r rows IH]; intros acc Hrows H; [exact H|].
  inversion Hrows; subst. cbn [fold_left].
  apply IH; [assumption|]. now apply processRow_options.
Qed.

Lemma result_options (wb : Workbook) :
  Forall admissible (allRows wb) ->
  Forall (fun it => P (MenuItem.options it))
    (MenuData.items (menuData (processWorkbook wb))).
Proof.
  intros H. cbn [menuData MenuData.items].
  apply (Forall_perm _ (groupedItems (processWorkbook wb)));
    [symmetry; apply Object_values_perm|].
  rewrite processWorkbook_rows. apply fold_rows_options; [exact H|constructor].
Qed.

End OptionsInvariant.

Lemma existsb_names (c : string) (l : list MenuChoice.t) :
  existsb (fun ch => String.eqb (MenuChoice.name ch) c) l = false ->
  ~ In c (map MenuChoice.name l).
Proof.
  induction l as [|x l IH]; cbn [existsb map In]; [auto|].
  destruct (String.eqb_spec (MenuChoice.name x) c); [discriminate|].
  intros H [Hx|Hin]; [contradiction|]. now apply IH.
Qed.

Lemma NoDup_snoc {A} (l : list A) (x : A) :
  NoDup l -> ~ In x l -> NoDup (l ++ [x]).
Proof.
  intros Hl Hx. apply (Permutation_NoDup (l := x :: l)).
  - apply Permutation_cons_append.
  - now constructor.
Qed.

Lemma pushChoice_unique nc o : uniqueChoices o -> uniqueChoices (pushChoice nc o).
Proof.
  unfold uniqueChoices, pushChoice. intros H.
  destruct (existsb _ (MenuOption.choices o)) eqn:E; [exact H|].
  cbn [MenuOption.choices]. rewrite map_app. cbn [map].
  apply NoDup_snoc; [exact H|]. now apply existsb_names.
Qed.

Lemma fold_pushChoice_unique ncs : forall o,
  uniqueChoices o ->
  uniqueChoices (fold_left (fun g nc => pushChoice nc g) ncs o).
Proof.
  induction ncs as [|nc ncs IH]; intros o H; [exact H|].
  cbn [fold_left]. now apply IH, pushChoice_unique.
Qed.

Lemma map_name_tokens toks :
  map MenuChoice.name (map (fun c => MenuChoice.mk c 0) toks) = toks.
Proof. rewrite map_map. cbn. apply map_id. Qed.

Lemma mergeOptions_uniqueChoices row opts :
  distinctTokens row ->
  Forall uniqueChoices opts -> Forall uniqueChoices (mergeOptions row opts).
Proof.
  intros Hrow H. unfold mergeOptions.
  destruct (rowBased row) as [[g c]|] eqn:Er.
  - unfold mergeRowBased. cbv zeta. destruct (find _ opts).
    + apply Forall_updateFirst; [|exact H]. intros x. apply pushChoice_unique.
    + apply Forall_app. split; [exact H|]. constructor; [|constructor].
      apply pushChoice_unique. constructor.
  - destruct (commaSeparated row) as [[optName toks]|] eqn:Ec; [|exact H].
    unfold mergeCommaSeparated. cbv zeta. destruct (find _ opts).
    + apply Forall_updateFirst; [|exact H].
      intros x. apply fold_pushChoice_unique.
    + apply Forall_app. split; [exact H|]. constructor; [|constructor].
      unfold uniqueChoices. cbn [MenuOption.choices].
      rewrite map_name_tokens. exact (Hrow Er optName toks Ec).
Qed.

(** X9: in a workbook whose comma-separated choice lists repeat no token,
    every option group of every item of the result holds no two choices of
    the same name. *)
Theorem choices_unique_within_group (wb : Workbook) :
  Forall distinctTokens (allRows wb) ->
  Forall (fun it => Forall uniqueChoices (MenuItem.options it))
    (MenuData.items (menuData (processWorkbook wb))).
Proof.
  apply (result_options (Forall uniqueChoices) distinctTokens).
  - constructor.
  - intros row opts. apply mergeOptions_uniqueChoices.
Qed.

Lemma choices_unique_within_group_witness :
  let r1 := [ ("Name", VStr "Bibimbap"); ("option_header", VStr "Size");
              ("option_choices", VStr "S, M") ] in
  let r2 := [ ("Name", VStr "Bibimbap"); ("option_header", VStr "Size");
              ("option_choices", VStr "M, L") ] in
  let wb := [ mkSheet [[VStr "Name"; VStr "option_header"]; []]
                (fun _ => [r1; r2]) ] in
  Forall (fun it => Forall uniqueChoices (MenuItem.options it))
    (MenuData.items (menuData (processWorkbook wb))).
Proof.
  intros r1 r2 wb. apply choices_unique_within_group.
  assert (E : allRows wb = [r1; r2]) by (vm_compute; reflexivity).
  rewrite E.
  constructor; [|constructor; [|constructor]]; intros _ optName toks Hc;
    vm_compute in Hc; injection Hc as _ <-;
    repeat (constructor; [cbn; intuition discriminate|]); constructor.
Defined.

Lemma find_none_names (g : string) (opts : list MenuOption.t) :
  find (fun o => String.eqb (MenuOption.name o) g) opts = None ->
  ~ In g (map MenuOption.name opts).
Proof.
  induction opts as [|x l IH]; cbn [find map In]; [auto|].
  destruct (String.eqb_spec (MenuOption.name x) g); [discriminate|].
  intros H [Hx|Hin]; [contradiction|]. now apply IH.
Qed.

Lemma map_optname_updateFirst (p : MenuOption.t -> bool)
    (f : MenuOption.t -> MenuOption.t) (l : list MenuOption.t) :
  (forall o, MenuOption.name (f o) = MenuOption.name o) ->
  map MenuOption.name (updateFirst p f l) = map MenuOption.name l.
Proof.
  intros Hf. induction l as [|x l IH]; [reflexivity|].
  cbn [updateFirst]. destruct (p x); cbn [map]; now rewrite ?Hf, ?IH.
Qed.

Lemma mergeOptions_uniqueGroups row opts :
  textHeader row -> uniqueGroups opts -> uniqueGroups (mergeOptions row opts).
Proof.
  unfold uniqueGroups. intros Hrow H. unfold mergeOptions.
  destruct (rowBased row) as [[g c]|] eqn:Er.
  - unfold mergeRowBased. cbv zeta. destruct (find _ opts) eqn:E.
    + rewrite map_optname_updateFirst; [exact H|apply pushChoice_name].
    + rewrite map_app. cbn [map]. rewrite pushChoice_name. cbn.
      apply NoDup_snoc; [exact H|]. now apply find_none_names.
  - destruct (commaSeparated row) as [[optName toks]|] eqn:Ec; [|exact H].
    destruct (Hrow Er optName toks Ec) as [s ->].
    unfold mergeCommaSeparated. cbv zeta. cbn [strictEq String_].
    destruct (find _ opts) eqn:E.
    + rewrite map_optname_updateFirst; [exact H|].
      intros o. now destruct (fold_pushChoice
                                (map (fun c => MenuChoice.mk c 0) toks) o).
    + rewrite map_app. cbn [map MenuOption.name].
      apply NoDup_snoc; [exact H|]. now apply find_none_names.
Qed.

(** X10: in a workbook whose comma-separated option headers are text
    cells, no item of the result has two option groups of the same name. *)
Theorem groups_unique_within_item (wb : Workbook) :
  Forall textHeader (allRows wb) ->
  Forall (fun it => uniqueGroups (MenuItem.options it))
    (MenuData.items (menuData (processWorkbook wb))).
Proof.
  apply (result_options uniqueGroups textHeader).
  - constructor.
  - intros row opts. apply mergeOptions_uniqueGroups.
Qed.

Lemma groups_unique_within_item_witness :
  let r1 := [ ("Name", VStr "Bibimbap"); ("option_group_name", VStr "Size");
              ("option_name", VStr "S") ] in
  let r2 := [ ("Name", VStr "Bibimbap"); ("option_header", VStr "Size");
              ("option_choices", VStr "M, L") ] in
  let wb := [ mkSheet [[VStr "Name"; VStr "option_header"]; []]
                (fun _ => [r1; r2]) ] in
  Forall (fun it => uniqueGroups (MenuItem.options it))
    (MenuData.items (menuData (processWorkbook wb))).
Proof.
  intros r1 r2 wb. apply groups_unique_within_item.
  assert (E : allRows wb = [r1; r2]) by (vm_compute; reflexivity).
  rewrite E.
  constructor; [|constructor; [|constructor]]; intros Hr optName toks Hc.
  - vm_compute in Hr. discriminate Hr.
  - vm_compute in Hc. injection Hc as <- _. now exists "Size".
Defined.

(** X11: a comma-separated row whose option header is a number never
    merges into an existing group: it appends a group named by the
    numeral, so that folding such a row twice for a new item leaves the
    item with two groups of the same name and the same choices. *)
Theorem numeric_header_never_merges (acc : Acc) (row : Row) (n : Z)
    (toks : list string) :
  itemRow row ->
  lookup (groupedItems acc) (name (resolve row)) = Missing ->
  rowBased row = None ->
  commaSeparated row = Some (VNum n, toks) ->
  let g := MenuOption.mk (ofZ n) (map (fun c => MenuChoice.mk c 0) toks) in
  (forall opts, mergeOptions row opts = (opts ++ [g])%list)
  /\ groupedItems (processRow (processRow acc row) row)
     = (groupedItems acc
        ++ [setOptions (newItem row (resolve row) (groupedItems acc)) [g; g]])%list.
Proof.
  intros Hitem Hmiss Hr Hc g.
  assert (Hm : forall opts, mergeOptions row opts = (opts ++ [g])%list).
  { intros opts. unfold mergeOptions. rewrite Hr, Hc.
    unfold mergeCommaSeparated. cbv zeta. cbn [strictEq].
    assert (E : find (fun _ : MenuOption.t => false) opts = None)
      by (induction opts; auto).
    now rewrite E. }
  split; [exact Hm|].
  rewrite (processRow_item _ row Hitem), (processRow_item _ row Hitem), Hmiss.
  cbn [groupedItems config]. apply lookup_missing in Hmiss.
  pose proof (hasName_newItem row (groupedItems acc)) as Hh.
  rewrite (lookup_own _ _ _ (find_app_last _ _ _ Hmiss Hh)).
  cbn [groupedItems]. rewrite (updateFirst_app_last _ _ _ _ Hmiss Hh).
  cbn [setOptions MenuItem.options]. now rewrite !Hm.
Qed.

Lemma numeric_header_never_merges_witness :
  let row := [ ("Name", VStr "Soju"); ("option_header", VNum 2024);
               ("option_choices", VStr "Fresh, Original") ] in
  exists it,
    groupedItems (processRow (processRow emptyAcc row) row) = [it]
    /\ map MenuOption.name (MenuItem.options it) = ["2024"; "2024"].
Proof.
  intros row.
  destruct (numeric_header_never_merges emptyAcc row 2024 ["Fresh"; "Original"])
    as [_ H]; try (vm_compute; reflexivity).
  - split; vm_compute; reflexivity.
  - eexists. split; [exact H|reflexivity].
Defined.

(** ** Image links *)

Lemma idChar_step (c : ascii) (s : string) :
  isIdChar c = true ->
  Ascii.eqb c "/" = false /\ Ascii.eqb c "&" = false
  /\ startsWithAny lineTerminator (String c s) = false.
Proof.
  destruct c as [[] [] [] [] [] [] [] []]; intros H;
    try discriminate H; repeat split; reflexivity.
Qed.

Lemma lazyDots_fileId (delim : ascii) (atEnd : bool) (id rest : string) :
  delim = "/"%char \/ delim = "&"%char ->
  fileId id = true ->
  lazyDots delim atEnd (id ++ String delim rest) = Some id.
Proof.
  intros Hd. unfold fileId.
  induction id as [|c id IH]; cbn [list_ascii_of_string forallb append lazyDots].
  - intros _. now rewrite Ascii.eqb_refl.
  - intros H. apply andb_true_iff in H as [Hc Hid].
    destruct (idChar_step c (id ++ String delim rest) Hc) as [H1 [H2 H3]].
    assert (Hcd : Ascii.eqb c delim = false) by (destruct Hd; now subst).
    rewrite Hcd, H3, (IH Hid). reflexivity.
Qed.

Lemma lazyDots_fileId_end (id : string) :
  fileId id = true -> lazyDots "&" true id = Some id.
Proof.
  unfold fileId.
  induction id as [|c id IH]; cbn [list_ascii_of_string forallb lazyDots].
  - reflexivity.
  - intros H. apply andb_true_iff in H as [Hc Hid].
    destruct (idChar_step c id Hc) as [H1 [H2 H3]].
    rewrite H2, H3, (IH Hid). reflexivity.
Qed.

Lemma append_empty (s : string) : s ++ "" = s.
Proof. induction s as [|c s IH]; [reflexivity|]. cbn [append]. now rewrite IH. Qed.

Lemma trim_empty : trim "" = "".
Proof. reflexivity. Qed.

Lemma capturedId_path id : id <> "" -> capturedId (PathStyle id) = id.
Proof. destruct id; [contradiction|reflexivity]. Qed.

(** X12: a Drive share link of the form
    https://drive.google.com/file/d/ID/..., possibly surrounded by white
    space, with a non-empty file id of visible characters, is rewritten to
    the direct link of that id. *)
Theorem processImageUrl_share_link (url id rest : string) :
  fileId id = true -> id <> "" ->
  trim url = "https://drive.google.com/file/d/" ++ id ++ String "/" rest ->
  processImageUrl url = directLink id.
Proof.
  intros Hid Hne Htrim. unfold processImageUrl, directLink.
  destruct (String.eqb_spec url "") as [->|_];
    [rewrite trim_empty in Htrim; discriminate|].
  cbv zeta. rewrite Htrim.
  assert (Hinc : includes
            ("https://drive.google.com/file/d/" ++ id ++ String "/" rest)
            "drive.google.com" = true).
  { apply includes_spec.
    exists "https://", ("/file/d/" ++ id ++ String "/" rest). reflexivity. }
  rewrite Hinc.
  cbn [append matchDriveId bind_opt strip Ascii.eqb Bool.eqb].
  rewrite (lazyDots_fileId "/" false id rest (or_introl eq_refl) Hid).
  now rewrite capturedId_path.
Qed.

Lemma processImageUrl_share_link_witness :
  processImageUrl
    "  https://drive.google.com/file/d/1AbC_dE-9/view?usp=sharing "
  = directLink "1AbC_dE-9".
Proof.
  apply (processImageUrl_share_link _ "1AbC_dE-9" "view?usp=sharing");
    [reflexivity|discriminate|vm_compute; reflexivity].
Defined.

(** X13: a Drive link that names the file in its query, as
    https://drive.google.com/open?id=ID or .../uc?id=ID, with or without
    further parameters behind an ampersand, is rewritten to the direct link
    of that id. *)
Theorem processImageUrl_query_link (url page id tail : string) :
  In page ["open"; "uc"; "thumbnail"] ->
  fileId id = true ->
  tail = "" \/ (exists rest, tail = String "&" rest) ->
  trim url = "https://drive.google.com/" ++ page ++ "?id=" ++ id ++ tail ->
  processImageUrl url = directLink id.
Proof.
  intros Hpage Hid Htail Htrim. unfold processImageUrl, directLink.
  destruct (String.eqb_spec url "") as [->|_].
  { rewrite trim_empty in Htrim. discriminate. }
  cbv zeta. rewrite Htrim.
  assert (Hinc : includes
            ("https://drive.google.com/" ++ page ++ "?id=" ++ id ++ tail)
            "drive.google.com" = true).
  { apply includes_spec.
    exists "https://", ("/" ++ page ++ "?id=" ++ id ++ tail). reflexivity. }
  rewrite Hinc.
  assert (Hlazy : lazyDots "&" true (id ++ tail) = Some id).
  { destruct Htail as [->|[rest ->]].
    - rewrite append_empty. now apply lazyDots_fileId_end.
    - apply lazyDots_fileId; auto. }
  cbn [In] in Hpage.
  destruct Hpage as [<-|[<-|[<-|[]]]];
    cbn [append matchDriveId bind_opt strip Ascii.eqb Bool.eqb];
    rewrite Hlazy; reflexivity.
Qed.

Lemma processImageUrl_query_link_witness :
  processImageUrl "https://drive.google.com/uc?id=1AbC_dE-9&export=download"
  = directLink "1AbC_dE-9".
Proof.
  apply (processImageUrl_query_link _ "uc" "1AbC_dE-9" "&export=download").
  - right. now left.
  - reflexivity.
  - right. now exists "export=download".
  - vm_compute. reflexivity.
Defined.

(** ** Trimming *)

Lemma list_ascii_app (a b : string) :
  list_ascii_of_string (a ++ b)
  = (list_ascii_of_string a ++ list_ascii_of_string b)%list.
Proof. induction a as [|c a IH]; [reflexivity|]. cbn. now rewrite IH. Qed.

Lemma string_of_list_app (l l' : list ascii) :
  string_of_list_ascii (l ++ l')
  = string_of_list_ascii l ++ string_of_list_ascii l'.
Proof. induction l as [|c l IH]; [reflexivity|]. cbn. now rewrite IH. Qed.

Lemma rev_app (a b : string) : rev (a ++ b) = rev b ++ rev a.
Proof.
  unfold rev. now rewrite list_ascii_app, rev_app_distr, string_of_list_app.
Qed.

Lemma rev_rev (s : string) : rev (rev s) = s.
Proof.
  unfold rev. rewrite list_ascii_of_string_of_list_ascii, rev_involutive.
  apply string_of_list_ascii_of_string.
Qed.

Lemma strip_any_app toks s r :
  strip_any toks s = Some r -> exists t, s = t ++ r.
Proof.
  induction toks as [|t toks IH]; cbn [strip_any]; [discriminate|].
  destruct (strip t s) as [r'|] eqn:E; [|exact IH].
  intros H. injection H as ->. exists t. now apply strip_app.
Qed.

Lemma append_assoc (a b c : string) : (a ++ b) ++ c = a ++ (b ++ c).
Proof. induction a as [|x a IH]; [reflexivity|]. cbn. now rewrite IH. Qed.

Lemma drop_while_suffix toks fuel : forall s,
  exists a, s = a ++ drop_while_tok toks fuel s.
Proof.
  induction fuel as [|fuel IH]; intros s; cbn [drop_while_tok].
  - now exists "".
  - destruct (strip_any toks s) as [r|] eqn:E; [|now exists ""].
    apply strip_any_app in E as [t ->]. destruct (IH r) as [a Ha].
    exists (t ++ a). rewrite append_assoc. now rewrite <- Ha.
Qed.

(** [trim] cuts a piece out of its argument. *)
Lemma trim_substring (s : string) : exists a b, s = a ++ trim s ++ b.
Proof.
  unfold trim, trimStart, trimEnd.
  destruct (drop_while_suffix whiteSpace (String.length s) s) as [a Ha].
  set (ts := drop_while_tok whiteSpace (String.length s) s) in *.
  destruct (drop_while_suffix (map rev whiteSpace) (String.length ts) (rev ts))
    as [b Hb].
  exists a, (rev b). rewrite Ha at 1. f_equal.
  rewrite <- rev_app, <- Hb. now rewrite rev_rev.
Qed.

Lemma strip_any_visible (c : ascii) (r : string) :
  visible c = true ->
  strip_any whiteSpace (String c r) = None
  /\ strip_any (map rev whiteSpace) (String c r) = None.
Proof.
  destruct c as [[] [] [] [] [] [] [] []]; intros H;
    try discriminate H; split; reflexivity.
Qed.

Lemma drop_while_visible_start fuel (s : string) :
  allVisible s = true -> drop_while_tok whiteSpace fuel s = s.
Proof.
  destruct fuel as [|fuel]; [reflexivity|]. destruct s as [|c r]; [reflexivity|].
  unfold allVisible. cbn [list_ascii_of_string forallb drop_while_tok].
  intros H. apply andb_true_iff in H as [Hc _].
  now rewrite (proj1 (strip_any_visible c r Hc)).
Qed.

Lemma drop_while_visible_end fuel (s : string) :
  allVisible s = true -> drop_while_tok (map rev whiteSpace) fuel s = s.
Proof.
  destruct fuel as [|fuel]; [reflexivity|]. destruct s as [|c r]; [reflexivity|].
  unfold allVisible. cbn [list_ascii_of_string forallb drop_while_tok].
  intros H. apply andb_true_iff in H as [Hc _].
  now rewrite (proj2 (strip_any_visible c r Hc)).
Qed.

Lemma allVisible_rev (s : string) : allVisible (rev s) = allVisible s.
Proof.
  unfold allVisible, rev. rewrite list_ascii_of_string_of_list_ascii.
  generalize (list_ascii_of_string s). intros l.
  induction l as [|c l IH]; [reflexivity|].
  cbn [List.rev forallb]. rewrite forallb_app, IH. cbn [forallb].
  now rewrite andb_true_r, andb_comm.
Qed.

(** Text of visible characters only is its own trimmed form. *)
Lemma trim_visible (s : string) : allVisible s = true -> trim s = s.
Proof.
  intros H. unfold trim, trimStart, trimEnd.
  rewrite (drop_while_visible_start _ s H).
  rewrite drop_while_visible_end by (now rewrite allVisible_rev).
  apply rev_rev.
Qed.

Lemma fileId_allVisible (id : string) : fileId id = true -> allVisible id = true.
Proof.
  unfold fileId, allVisible. generalize (list_ascii_of_string id). intros l.
  induction l as [|c l IH]; [reflexivity|]. cbn [forallb].
  intros H. apply andb_true_iff in H as [Hc Hl]. rewrite (IH Hl).
  unfold isIdChar in Hc. apply andb_true_iff in Hc as [Hc _].
  apply andb_true_iff in Hc as [Hc _]. now rewrite Hc.
Qed.

(** X14: the direct link of a file id of visible characters is a fixed
    point of [processImageUrl]: normalising an already normalised link
    changes nothing. *)
Theorem processImageUrl_direct_link_fixed (id : string) :
  fileId id = true -> processImageUrl (directLink id) = directLink id.
Proof.
  intros Hid. unfold processImageUrl.
  assert (Htrim : trim (directLink id) = directLink id).
  { apply trim_visible. unfold allVisible, directLink.
    rewrite list_ascii_app, forallb_app.
    fold (allVisible id). now rewrite (fileId_allVisible id Hid). }
  assert (Hinc : includes (directLink id) "drive.google.com" = true).
  { apply includes_spec. exists "https://", ("/uc?export=view&id=" ++ id).
    reflexivity. }
  change (String.eqb (directLink id) "") with false. cbv iota zeta.
  rewrite Htrim, Hinc. unfold directLink at 1.
  cbn [append matchDriveId bind_opt strip Ascii.eqb Bool.eqb].
  now rewrite (lazyDots_fileId_end id Hid).
Qed.

Lemma processImageUrl_direct_link_fixed_witness :
  processImageUrl
    (processImageUrl "https://drive.google.com/file/d/1AbC_dE-9/view")
  = processImageUrl "https://drive.google.com/file/d/1AbC_dE-9/view".
Proof.
  rewrite (processImageUrl_share_link
             "https://drive.google.com/file/d/1AbC_dE-9/view" "1AbC_dE-9" "view");
    [|reflexivity|discriminate|vm_compute; reflexivity].
  apply processImageUrl_direct_link_fixed. reflexivity.
Defined.

(** ** Line ids and comma-separated choices *)

Lemma noChar_substring c s a t b : noChar c s -> s = a ++ t ++ b -> noChar c t.
Proof.
  intros H -> x y ->. apply (H (a ++ x) (y ++ b)).
  now rewrite !append_assoc.
Qed.

Lemma noChar_empty c : noChar c "".
Proof. intros a b H. destruct a; discriminate H. Qed.

Lemma noChar_String c x s : x <> c -> noChar c s -> noChar c (String x s).
Proof.
  intros Hx Hs a b H. destruct a as [|y a]; cbn in H; injection H as H1 H2.
  - congruence.
  - now apply (Hs a b).
Qed.

Lemma split_pieces sep s : Forall (noChar sep) (split sep s).
Proof.
  induction s as [|x s IH]; cbn [split].
  - constructor; [apply noChar_empty|constructor].
  - destruct (Ascii.eqb_spec x sep) as [->|Hne].
    + constructor; [apply noChar_empty|exact IH].
    + destruct (split sep s) as [|h t]; inversion IH; subst.
      * constructor; [|constructor].
        apply noChar_String; [exact Hne|apply noChar_empty].
      * constructor; [now apply noChar_String|assumption].
Qed.

Lemma split_hd_prefix sep s : exists rest, s = hd "" (split sep s) ++ rest.
Proof.
  induction s as [|x s [rest IH]]; cbn [split]; [now exists ""|].
  destruct (Ascii.eqb x sep); [now exists (String x s)|].
  destruct (split sep s) as [|h t] eqn:E.
  - now apply split_not_nil in E.
  - exists rest. cbn [hd append] in *. now rewrite <- IH.
Qed.

Lemma last_In {A} (l : list A) (d : A) : l <> [] -> In (last l d) l.
Proof.
  induction l as [|x l IH]; [contradiction|]. intros _.
  destruct l as [|y l]; [now left|]. right. apply IH. discriminate.
Qed.

(** X15: what [extractLineId] keeps of a value that mentions line.me
    contains no slash and no question mark. *)
Theorem extractLineId_plain_segment (v : value) :
  includes (trim (String_ v)) "line.me" = true ->
  noChar "/" (extractLineId v) /\ noChar "?" (extractLineId v).
Proof.
  intros Hinc. unfold extractLineId.
  destruct (truthy v); cbn [negb]; [|split; apply noChar_empty].
  cbv zeta. rewrite Hinc.
  set (seg := last (split "/" (trim (String_ v))) "").
  assert (Hseg : noChar "/" seg).
  { pose proof (split_pieces "/" (trim (String_ v))) as H.
    rewrite Forall_forall in H. apply H. apply last_In, split_not_nil. }
  split.
  - destruct (split_hd_prefix "?" seg) as [rest Hr].
    apply (noChar_substring _ seg "" _ rest Hseg). exact Hr.
  - pose proof (split_pieces "?" seg) as H.
    destruct (split "?" seg) as [|h t] eqn:E; [apply noChar_empty|].
    now inversion H.
Qed.

Lemma extractLineId_plain_segment_witness :
  noChar "/" (extractLineId (VStr " https://line.me/R/ti/p/@seoulgood?utm=a/b "))
  /\ extractLineId (VStr " https://line.me/R/ti/p/@seoulgood?utm=a/b ") = "b".
Proof.
  split; [|vm_compute; reflexivity].
  apply extractLineId_plain_segment. vm_compute. reflexivity.
Defined.

(** X16: when the comma-separated encoding applies to a row, its header
    cell is truthy, it gives at least one choice name, and no choice name
    is empty or contains a comma. *)
Theorem commaSeparated_tokens (row : Row) (optName : value) (toks : list string) :
  commaSeparated row = Some (optName, toks) ->
  truthy optName = true
  /\ toks <> []
  /\ Forall (fun t => t <> "" /\ noChar "," t) toks.
Proof.
  unfold commaSeparated. cbv zeta.
  set (h := getValue row ["option_header"; "หัวข้อ"] ["group"]).
  set (cs := getValue row _ ["group"; "name"]).
  destruct (truthy h) eqn:Hh; cbn [andb]; [|discriminate].
  destruct (truthy cs); [|discriminate].
  destruct (filter nonEmpty (map trim (split "," (String_ cs)))) as [|t ts] eqn:E;
    [discriminate|].
  intros H. injection H as <- <-.
  split; [exact Hh|]. split; [discriminate|].
  rewrite <- E. apply Forall_forall. intros t' Hin.
  apply filter_In in Hin as [Hin Hne]. split.
  - unfold nonEmpty in Hne. intros ->. discriminate Hne.
  - apply in_map_iff in Hin as [p [<- Hp]].
    pose proof (split_pieces "," (String_ cs)) as Hs.
    rewrite Forall_forall in Hs.
    destruct (trim_substring p) as [a [b Hab]].
    exact (noChar_substring _ p a (trim p) b (Hs p Hp) Hab).
Qed.

Lemma commaSeparated_tokens_witness :
  commaSeparated
    [ ("Name", VStr "Bibimbap"); ("option_header", VStr "Size");
      ("option_choices", VStr " S ,, M, ") ]
  = Some (VStr "Size", ["S"; "M"])
  /\ Forall (fun t => t <> "" /\ noChar "," t) ["S"; "M"].
Proof.
  split; [vm_compute; reflexivity|].
  apply (commaSeparated_tokens
           [ ("Name", VStr "Bibimbap"); ("option_header", VStr "Size");
             ("option_choices", VStr " S ,, M, ") ] (VStr "Size")).
  vm_compute. reflexivity.
Defined.

(** * Properties of the storefront *)

(** ** The QR code shown *)

Lemma getSafeStorage_nonempty storage key s :
  getSafeStorage storage key = Some s -> nonEmpty s = true.
Proof.
  unfold getSafeStorage. destruct storage as [getItem|]; [|discriminate].
  destruct (getItem key) as [item|]; [|discriminate].
  destruct (String.eqb item "null"); [discriminate|].
  destruct (String.eqb item "undefined"); [discriminate|].
  unfold nonEmpty. destruct (String.eqb item "") eqn:E; [discriminate|].
  intros H. injection H as <-. now rewrite E.
Qed.

Lemma nonEmpty_neq s : nonEmpty s = true -> s <> "".
Proof. unfold nonEmpty. intros H ->. discriminate H. Qed.

(** X17: the QR code URL the storefront shows is never empty; and after a
    setting row filed under the QR key whose image field does not resolve,
    a device without a stored override shows the built-in QR code. *)
Theorem final_qr_never_empty :
  (forall storage sheetConfig,
     finalQrUrl (getSafeStorage storage "app_qr") sheetConfig <> "")
  /\ (forall acc row storage,
        isConfigRow (resolve row) = true ->
        configKeyOf (resolve row) = Some Qr ->
        truthy (getValue row imageKeys []) = false ->
        getSafeStorage storage "app_qr" = None ->
        finalQrUrl (getSafeStorage storage "app_qr") (config (processRow acc row))
        = DEFAULT_QR).
Proof.
  split.
  - intros storage c. unfold finalQrUrl.
    destruct (getSafeStorage storage "app_qr") as [s|] eqn:E.
    + rewrite (getSafeStorage_nonempty _ _ _ E).
      now apply nonEmpty_neq, (getSafeStorage_nonempty storage "app_qr").
    + destruct (AppConfig.qrCodeUrl c) as [u|]; [|discriminate].
      destruct (nonEmpty u) eqn:Eu; [now apply nonEmpty_neq|discriminate].
  - intros acc row storage Hcfg Hk Himg ->.
    rewrite (processRow_config _ _ Hcfg). cbn [config].
    unfold extractConfig. rewrite Hk, (processedImg_unresolved row Himg).
    reflexivity.
Qed.

Lemma final_qr_never_empty_witness :
  let first := [ ("Category", VStr "Setting"); ("Name", VStr "Payment QR");
                 ("Image", VStr "https://example.com/qr.png") ] in
  let second := [ ("Category", VStr "Setting"); ("Name", VStr "qr") ] in
  finalQrUrl (getSafeStorage None "app_qr")
    (config (processRow (processRow emptyAcc first) second))
  = DEFAULT_QR.
Proof.
  intros first second.
  apply (proj2 final_qr_never_empty); vm_compute; reflexivity.
Defined.

(** ** Category tabs *)

Lemma existsb_eqb_In (x : string) (l : list string) :
  existsb (String.eqb x) l = true <-> In x l.
Proof.
  rewrite existsb_exists. split.
  - intros [y [Hy He]]. apply String.eqb_eq in He. now subst.
  - intros H. exists x. split; [exact H|apply String.eqb_refl].
Qed.

Lemma setFold_In (l : list string) : forall seen x,
  In x (fold_left
          (fun seen x => if existsb (String.eqb x) seen then seen
                         else seen ++ [x])%list l seen)
  <-> In x seen \/ In x l.
Proof.
  induction l as [|y l IH]; intros seen x; cbn [fold_left In]; [tauto|].
  rewrite IH. destruct (existsb (String.eqb y) seen) eqn:E.
  - apply existsb_eqb_In in E. split; [tauto|].
    intros [H|[<-|H]]; auto.
  - rewrite in_app_iff. cbn [In]. tauto.
Qed.

Lemma setFold_NoDup (l : list string) : forall seen,
  NoDup seen ->
  NoDup (fold_left
           (fun seen x => if existsb (String.eqb x) seen then seen
                          else seen ++ [x])%list l seen).
Proof.
  induction l as [|y l IH]; intros seen H; cbn [fold_left]; [exact H|].
  apply IH. destruct (existsb (String.eqb y) seen) eqn:E; [exact H|].
  apply NoDup_snoc; [exact H|]. intros Hin.
  apply existsb_eqb_In in Hin. congruence.
Qed.

Lemma Set_of_In l x : In x (Set_of l) <-> In x l.
Proof. unfold Set_of. rewrite setFold_In. cbn [In]. tauto. Qed.

(** X18: the tabs of the storefront start with All, which lists the whole
    menu; every item is listed under the tab of its category, which is a
    tab whenever it is not empty; every tab lists only items of the menu
    and at least one of them; and no category occurs twice among the
    tabs. *)
Theorem tabs_cover_menu (menu : list MenuItem.t) :
  hd "" (categories menu) = "All"
  /\ filteredMenu menu "All" = menu
  /\ (forall it, In it menu -> In it (filteredMenu menu (MenuItem.category it)))
  /\ (forall it, In it menu -> MenuItem.category it <> "" ->
        In (MenuItem.category it) (categories menu))
  /\ (forall c it, In it (filteredMenu menu c) -> In it menu)
  /\ (forall c, In c (categories menu) -> menu <> [] -> filteredMenu menu c <> [])
  /\ NoDup (tl (categories menu)).
Proof.
  split; [reflexivity|]. split; [reflexivity|]. split; [|split; [|split; [|split]]].
  - intros it Hin. unfold filteredMenu.
    destruct (String.eqb (MenuItem.category it) "All"); [exact Hin|].
    apply filter_In. split; [exact Hin|apply String.eqb_refl].
  - intros it Hin Hne. unfold categories. right.
    apply filter_In. split.
    + apply (proj2 (Set_of_In _ _)). now apply in_map.
    + unfold nonEmpty. now destruct (String.eqb_spec (MenuItem.category it) "").
  - intros c it. unfold filteredMenu.
    destruct (String.eqb c "All"); [auto|]. intros H.
    now apply filter_In in H.
  - intros c Hc Hne. unfold filteredMenu.
    destruct (String.eqb_spec c "All") as [->|Hall]; [exact Hne|].
    destruct Hc as [Hc|Hc]; [congruence|].
    apply filter_In in Hc as [Hc _]. apply (proj1 (Set_of_In _ _)) in Hc.
    apply in_map_iff in Hc as [it [Hcat Hin]].
    intros Hnil.
    assert (Hf : In it (filter (fun item => String.eqb (MenuItem.category item) c)
                          menu)).
    { apply filter_In. split; [exact Hin|]. now apply String.eqb_eq. }
    now rewrite Hnil in Hf.
  - cbn [categories tl]. apply NoDup_filter. unfold Set_of.
    apply setFold_NoDup. constructor.
Qed.

Lemma tabs_cover_menu_witness :
  let ramen := MenuItem.mk "item-0" "Noodles" "Ramen" 90 None "" false [] in
  let rice := MenuItem.mk "item-1" "Rice" "Bibimbap" 150 None "" false [] in
  let udon := MenuItem.mk "item-2" "Noodles" "Udon" 80 None "" false [] in
  categories [ramen; rice; udon] = ["All"; "Noodles"; "Rice"]
  /\ In udon (filteredMenu [ramen; rice; udon] "Noodles").
Proof.
  intros ramen rice udon. split; [reflexivity|].
  apply (proj1 (proj2 (proj2 (tabs_cover_menu [ramen; rice; udon]))) udon).
  right. right. now left.
Defined.

Lemma ofZ_nonempty (n : Z) : ofZ n <> "".
Proof.
  unfold ofZ. destruct (Z.to_int n) as [d|d]; cbn; [|discriminate].
  destruct d; discriminate.
Qed.

Lemma String_truthy (v : value) : truthy v = true -> String_ v <> "".
Proof.
  destruct v as [|s|n]; cbn; [discriminate| |intros _; apply ofZ_nonempty].
  destruct (String.eqb_spec s ""); [discriminate|auto].
Qed.

Lemma resolve_category_nonempty (row : Row) : category (resolve row) <> "".
Proof.
  unfold resolve. cbv zeta. cbn [category]. unfold or_else.
  destruct (truthy (getValue row categoryKeys [])) eqn:E.
  - now apply String_truthy.
  - discriminate.
Qed.

Lemma processRow_categories acc row :
  Forall (fun it => MenuItem.category it <> "") (groupedItems acc) ->
  Forall (fun it => MenuItem.category it <> "")
    (groupedItems (processRow acc row)).
Proof.
  intros H. unfold processRow. cbv zeta.
  destruct (isConfigRow (resolve row)); [exact H|].
  destruct (negb (truthy (rawName (resolve row)))); [exact H|].
  destruct (lookup (groupedItems acc) (name (resolve row)));
    [|exact H|]; cbn [groupedItems].
  - apply Forall_updateFirst; [|exact H]. intros x Hx. exact Hx.
  - apply Forall_app. split; [exact H|]. constructor; [|constructor].
    cbn. apply resolve_category_nonempty.
Qed.

Lemma fold_rows_categories rows : forall acc,
  Forall (fun it => MenuItem.category it <> "") (groupedItems acc) ->
  Forall (fun it => MenuItem.category it <> "")
    (groupedItems (fold_left processRow rows acc)).
Proof.
  induction rows as [|r rows IH]; intros acc H; [exact H|].
  cbn [fold_left]. now apply IH, processRow_categories.
Qed.

(** X19: every item of a result has a non-empty category; in the
    storefront that category is one of the tabs, and the tab lists the
    item. *)
Theorem every_item_under_a_tab (wb : Workbook) (it : MenuItem.t) :
  In it (MenuData.items (menuData (processWorkbook wb))) ->
  MenuItem.category it <> ""
  /\ In (MenuItem.category it)
       (categories (MenuData.items (menuData (processWorkbook wb))))
  /\ In it (filteredMenu (MenuData.items (menuData (processWorkbook wb)))
              (MenuItem.category it)).
Proof.
  intros Hin.
  assert (Hcat : MenuItem.category it <> "").
  { assert (H : Forall (fun it => MenuItem.category it <> "")
                  (MenuData.items (menuData (processWorkbook wb)))).
    { cbn [menuData MenuData.items].
      apply (Forall_perm _ (groupedItems (processWorkbook wb)));
        [symmetry; apply Object_values_perm|].
      rewrite processWorkbook_rows. apply fold_rows_categories. constructor. }
    rewrite Forall_forall in H. now apply H. }
  split; [exact Hcat|].
  destruct (tabs_cover_menu (MenuData.items (menuData (processWorkbook wb))))
    as [_ [_ [H1 [H2 _]]]].
  split; [now apply H2|now apply H1].
Qed.

Lemma every_item_under_a_tab_witness :
  let wb := [ mkSheet [[VStr "Name"; VStr "Price"]; []]
                (fun _ => [ [("Name", VStr "Ramen"); ("Price", VNum 90)] ]) ] in
  exists it,
    MenuData.items (menuData (processWorkbook wb)) = [it]
    /\ MenuItem.category it = "General"
    /\ In (MenuItem.category it)
         (categories (MenuData.items (menuData (processWorkbook wb)))).
Proof.
  intros wb. eexists. split; [vm_compute; reflexivity|].
  split; [reflexivity|].
  apply (every_item_under_a_tab wb). vm_compute. now left.
Defined.

(** ** The cart *)

Lemma fold_sum_shift {A} (f : A -> Z) (l : list A) : forall a,
  fold_left (fun sum x => (sum + f x)%Z) l a
  = (a + fold_left (fun sum x => (sum + f x)%Z) l 0)%Z.
Proof.
  induction l as [|x l IH]; intros a; cbn [fold_left]; [lia|].
  rewrite IH, (IH (0 + f x)%Z). lia.
Qed.

Lemma totalItems_cons x cart :
  totalItems (x :: cart) = (CartItem.quantity x + totalItems cart)%Z.
Proof.
  unfold totalItems. cbn [fold_left].
  rewrite (fold_sum_shift CartItem.quantity). lia.
Qed.

Lemma totalItems_app (a b : Cart) :
  totalItems (a ++ b)%list = (totalItems a + totalItems b)%Z.
Proof.
  induction a as [|x a IH]; [reflexivity|].
  cbn [app]. rewrite !totalItems_cons, IH. lia.
Qed.

(** The element at [index], when there is one, with what stands before
    and behind it. *)
Lemma nth_error_split_at {A} (l : list A) (index : nat) (x : A) :
  nth_error l index = Some x ->
  exists pre post, l = (pre ++ x :: post)%list /\ List.length pre = index.
Proof. apply nth_error_split. Qed.

Lemma mapIndex_outside {A} (g : A -> A) (index : nat) (l : list A) : forall i,
  index < i ->
  mapIndex (fun x j => if Nat.eqb j index then g x else x) i l = l.
Proof.
  induction l as [|x l IH]; intros i Hi; [reflexivity|].
  cbn [mapIndex]. destruct (Nat.eqb_spec i index); [lia|].
  now rewrite IH by lia.
Qed.

Lemma mapIndex_at {A} (g : A -> A) (pre : list A) : forall i x post,
  mapIndex (fun y j => if Nat.eqb j (i + List.length pre) then g y else y) i
    (pre ++ x :: post)
  = (pre ++ g x :: post)%list.
Proof.
  induction pre as [|p pre IH]; intros i x post; cbn [app mapIndex List.length].
  - rewrite Nat.add_0_r, Nat.eqb_refl. f_equal.
    apply mapIndex_outside. lia.
  - destruct (Nat.eqb_spec i (i + S (List.length pre))); [lia|]. f_equal.
    replace (i + S (List.length pre)) with (S i + List.length pre) by lia.
    apply IH.
Qed.

Lemma mapIndex_beyond {A} (g : A -> A) (index : nat) (l : list A) : forall i,
  i + List.length l <= index ->
  mapIndex (fun x j => if Nat.eqb j index then g x else x) i l = l.
Proof.
  induction l as [|x l IH]; intros i Hi; [reflexivity|].
  cbn [mapIndex List.length] in *. destruct (Nat.eqb_spec i index); [lia|].
  now rewrite IH by lia.
Qed.

Lemma filterIndex_outside {A} (index : nat) (l : list A) : forall i,
  index < i -> filterIndex (fun j => negb (Nat.eqb j index)) i l = l.
Proof.
  induction l as [|x l IH]; intros i Hi; [reflexivity|].
  cbn [filterIndex]. destruct (Nat.eqb_spec i index); [lia|]. cbn [negb].
  now rewrite IH by lia.
Qed.

Lemma filterIndex_at {A} (pre : list A) : forall i x post,
  filterIndex (fun j => negb (Nat.eqb j (i + List.length pre))) i
    (pre ++ x :: post)
  = (pre ++ post)%list.
Proof.
  induction pre as [|p pre IH]; intros i x post;
    cbn [app filterIndex List.length].
  - rewrite Nat.add_0_r, Nat.eqb_refl. cbn [negb].
    apply filterIndex_outside. lia.
  - destruct (Nat.eqb_spec i (i + S (List.length pre))); [lia|]. cbn [negb].
    f_equal. replace (i + S (List.length pre)) with (S i + List.length pre) by lia.
    apply IH.
Qed.

Lemma filterIndex_beyond {A} (index : nat) (l : list A) : forall i,
  i + List.length l <= index ->
  filterIndex (fun j => negb (Nat.eqb j index)) i l = l.
Proof.
  induction l as [|x l IH]; intros i Hi; [reflexivity|].
  cbn [filterIndex List.length] in *. destruct (Nat.eqb_spec i index); [lia|].
  cbn [negb]. now rewrite IH by lia.
Qed.

Lemma updateQuantity_eq index delta prev :
  updateQuantity index delta prev
  = mapIndex
      (fun x j =>
         if Nat.eqb j index
         then (fun item =>
                 if (0 <? CartItem.quantity item + delta)%Z
                 then CartItem.mk (CartItem.item item)
                        (CartItem.quantity item + delta)
                        (CartItem.note item) (CartItem.selectedOptions item)
                 else item) x
         else x) 0 prev.
Proof. reflexivity. Qed.

(** X20: [updateQuantity] replaces the line at the index by the same line
    with its quantity changed by the delta when the result is positive,
    leaving every other line and the order as they are and changing the
    item count by the delta; it leaves the cart as it is when the result
    would not be positive or the index is not that of a line. *)
Theorem updateQuantity_effect (index : nat) (delta : Z) (cart : Cart) :
  (forall line,
     nth_error cart index = Some line ->
     (0 < CartItem.quantity line + delta)%Z ->
     exists pre post,
       cart = (pre ++ line :: post)%list /\ List.length pre = index
       /\ updateQuantity index delta cart
          = (pre
             ++ CartItem.mk (CartItem.item line) (CartItem.quantity line + delta)
                  (CartItem.note line) (CartItem.selectedOptions line)
             :: post)%list
       /\ totalItems (updateQuantity index delta cart)
          = (totalItems cart + delta)%Z)
  /\ (forall line,
        nth_error cart index = Some line ->
        (CartItem.quantity line + delta <= 0)%Z ->
        updateQuantity index delta cart = cart)
  /\ (nth_error cart index = None -> updateQuantity index delta cart = cart).
Proof.
  rewrite updateQuantity_eq. split; [|split].
  - intros line Hnth Hpos.
    destruct (nth_error_split_at _ _ _ Hnth) as [pre [post [-> <-]]].
    exists pre, post. split; [reflexivity|]. split; [reflexivity|].
    rewrite (mapIndex_at _ pre 0 line post).
    destruct (Z.ltb_spec 0 (CartItem.quantity line + delta)); [|lia].
    split; [reflexivity|].
    rewrite !totalItems_app, !totalItems_cons.
    cbn [CartItem.quantity]. lia.
  - intros line Hnth Hneg.
    destruct (nth_error_split_at _ _ _ Hnth) as [pre [post [-> <-]]].
    rewrite (mapIndex_at _ pre 0 line post).
    destruct (Z.ltb_spec 0 (CartItem.quantity line + delta)); [lia|reflexivity].
  - intros Hnone. apply nth_error_None in Hnone.
    apply mapIndex_beyond. lia.
Qed.

Lemma updateQuantity_effect_witness :
  let ramen := MenuItem.mk "item-0" "Noodles" "Ramen" 90 None "" false [] in
  let cart := [ CartItem.mk ramen 1 (Some "") (Some []);
                CartItem.mk ramen 2 (Some "no egg") (Some []) ] in
  totalItems (updateQuantity 1 3 cart) = (totalItems cart + 3)%Z
  /\ updateQuantity 0 (-1) cart = cart
  /\ updateQuantity 2 1 cart = cart.
Proof.
  intros ramen cart.
  destruct (updateQuantity_effect 1 3 cart) as [H1 _].
  destruct (updateQuantity_effect 0 (-1) cart) as [_ [H2 _]].
  destruct (updateQuantity_effect 2 1 cart) as [_ [_ H3]].
  split; [|split].
  - destruct (H1 (CartItem.mk ramen 2 (Some "no egg") (Some [])))
      as [pre [post [_ [_ [_ H]]]]]; [reflexivity|cbn; lia|exact H].
  - apply (H2 (CartItem.mk ramen 1 (Some "") (Some []))); [reflexivity|].
    cbn. lia.
  - apply H3. reflexivity.
Defined.

Lemma Forall_mapIndex {A} (Q : A -> Prop) (f : A -> nat -> A) (l : list A) :
  (forall x j, Q x -> Q (f x j)) ->
  forall i, Forall Q l -> Forall Q (mapIndex f i l).
Proof.
  intros Hf. induction l as [|x l IH]; intros i H; cbn [mapIndex];
    [constructor|].
  inversion H; subst. constructor; auto.
Qed.

(** X21: [updateQuantity] never produces a line with a quantity that is
    not positive: a cart whose quantities are all positive stays so,
    whatever the index and the delta. *)
Theorem updateQuantity_keeps_positive (index : nat) (delta : Z) (cart : Cart) :
  Forall (fun line => (0 < CartItem.quantity line)%Z) cart ->
  Forall (fun line => (0 < CartItem.quantity line)%Z)
    (updateQuantity index delta cart).
Proof.
  unfold updateQuantity. apply Forall_mapIndex.
  intros x j Hx. destruct (Nat.eqb j index); [|exact Hx]. cbv zeta.
  destruct (Z.ltb_spec 0 (CartItem.quantity x + delta)); [|exact Hx].
  exact H.
Qed.

Lemma updateQuantity_keeps_positive_witness :
  let ramen := MenuItem.mk "item-0" "Noodles" "Ramen" 90 None "" false [] in
  Forall (fun line => (0 < CartItem.quantity line)%Z)
    (updateQuantity 0 (-5) [CartItem.mk ramen 2 None None]).
Proof.
  intros ramen. apply updateQuantity_keeps_positive.
  constructor; [cbn; lia|constructor].
Defined.

(** X22: [removeFromCart] takes out exactly the line at the index, keeps
    the others in their order, and lowers the item count by the quantity of
    that line; an index that is not that of a line leaves the cart as it
    is. *)
Theorem removeFromCart_effect (index : nat) (cart : Cart) :
  (forall line,
     nth_error cart index = Some line ->
     exists pre post,
       cart = (pre ++ line :: post)%list /\ List.length pre = index
       /\ removeFromCart index cart = (pre ++ post)%list
       /\ totalItems (removeFromCart index cart)
          = (totalItems cart - CartItem.quantity line)%Z)
  /\ (nth_error cart index = None -> removeFromCart index cart = cart).
Proof.
  unfold removeFromCart. split.
  - intros line Hnth.
    destruct (nth_error_split_at _ _ _ Hnth) as [pre [post [-> <-]]].
    pose proof (filterIndex_at pre 0 line post) as E. cbn [Nat.add] in E.
    exists pre, post. split; [reflexivity|]. split; [reflexivity|].
    rewrite E. split; [reflexivity|].
    rewrite !totalItems_app, totalItems_cons. lia.
  - intros Hnone. apply nth_error_None in Hnone.
    apply filterIndex_beyond. lia.
Qed.

Lemma removeFromCart_effect_witness :
  let ramen := MenuItem.mk "item-0" "Noodles" "Ramen" 90 None "" false [] in
  let cart := [ CartItem.mk ramen 1 (Some "") (Some []);
                CartItem.mk ramen 2 (Some "no egg") (Some []) ] in
  removeFromCart 5 cart = cart
  /\ exists pre post,
       cart = (pre ++ CartItem.mk ramen 2 (Some "no egg") (Some []) :: post)%list
       /\ List.length pre = 1
       /\ removeFromCart 1 cart = (pre ++ post)%list
       /\ totalItems (removeFromCart 1 cart)
          = (totalItems cart
             - CartItem.quantity (CartItem.mk ramen 2 (Some "no egg") (Some [])))%Z.
Proof.
  intros ramen cart. split.
  - apply (proj2 (removeFromCart_effect 5 cart)). reflexivity.
  - apply (proj1 (removeFromCart_effect 1 cart)). reflexivity.
Defined.

Lemma totalItems_updateFirst (p : CartItem.t -> bool) (f : CartItem.t -> CartItem.t)
    (q : Z) (prev : Cart) (x : CartItem.t) :
  (forall i, CartItem.quantity (f i) = (CartItem.quantity i + q)%Z) ->
  find p prev = Some x ->
  totalItems (updateFirst p f prev) = (totalItems prev + q)%Z
  /\ List.length (updateFirst p f prev) = List.length prev.
Proof.
  intros Hf Hfind.
  destruct (updateFirst_split p f prev x Hfind) as [pre [post [-> [-> _]]]].
  rewrite !totalItems_app, !totalItems_cons, !length_app, Hf.
  cbn [List.length]. split; lia.
Qed.

(** X23: adding to the cart raises the item count by exactly the chosen
    quantity, whether the selection is merged into a line of the same item,
    note and options or appended as a new line; the cart gains at most one
    line and loses none; a positive chosen quantity keeps every quantity
    positive; and without a selected item the cart is not touched. *)
Theorem confirmAddToCart_counts (selectedItem : MenuItem.t) (tempQuantity : Z)
    (tempNote : string) (tempSelectedOptions : list (string * string))
    (prev : Cart) :
  let cart := confirmAddToCart (Some selectedItem) tempQuantity tempNote
                tempSelectedOptions prev in
  totalItems cart = (totalItems prev + tempQuantity)%Z
  /\ List.length prev <= List.length cart <= S (List.length prev)
  /\ ((0 < tempQuantity)%Z ->
      Forall (fun line => (0 < CartItem.quantity line)%Z) prev ->
      Forall (fun line => (0 < CartItem.quantity line)%Z) cart)
  /\ confirmAddToCart None tempQuantity tempNote tempSelectedOptions prev = prev.
Proof.
  cbv zeta. unfold confirmAddToCart. cbv zeta.
  set (p := sameLine selectedItem tempNote
              (JSON_stringify_record tempSelectedOptions)).
  destruct (find p prev) as [x|] eqn:E.
  - destruct (totalItems_updateFirst p
                (fun i => CartItem.mk
                            (setPrice (CartItem.item i)
                               (getPriceWithOptions selectedItem tempSelectedOptions))
                            (CartItem.quantity i + tempQuantity)
                            (CartItem.note i) (CartItem.selectedOptions i))
                tempQuantity prev x (fun _ => eq_refl) E) as [Ht Hl].
    split; [exact Ht|]. split; [lia|]. split; [|reflexivity].
    intros Hq H. apply Forall_updateFirst; [|exact H].
    intros i Hi. cbn [CartItem.quantity]. lia.
  - rewrite totalItems_app, length_app. cbn [List.length].
    unfold totalItems at 2. cbn [fold_left CartItem.quantity].
    split; [lia|]. split; [lia|]. split; [|reflexivity].
    intros Hq H. apply Forall_app. split; [exact H|].
    constructor; [exact Hq|constructor].
Qed.

Lemma confirmAddToCart_counts_witness :
  let ramen := MenuItem.mk "item-0" "Noodles" "Ramen" 90 None "" false
                 [MenuOption.mk "Size" [MenuChoice.mk "S" 0; MenuChoice.mk "L" 20]] in
  let cart := confirmAddToCart (Some ramen) 2 "" [("Size", "L")] [] in
  let cart' := confirmAddToCart (Some ramen) 3 "" [("Size", "L")] cart in
  List.length cart' = 1
  /\ Forall (fun line => (0 < CartItem.quantity line)%Z) cart'.
Proof.
  intros ramen cart cart'. split; [reflexivity|].
  apply (proj1 (proj2 (proj2
           (confirmAddToCart_counts ramen 3 "" [("Size", "L")] cart))));
    [lia|].
  apply (proj1 (proj2 (proj2
           (confirmAddToCart_counts ramen 2 "" [("Size", "L")] []))));
    [lia|constructor].
Defined.

Lemma addModifier_unselected item p e :
  selects item e = false -> addModifier item p e = p.
Proof.
  unfold selects, addModifier. destruct e as [optName choiceName].
  cbn [fst snd].
  destruct (find _ (MenuItem.options item)) as [o|]; [|reflexivity].
  destruct (find _ (MenuOption.choices o)); [discriminate|reflexivity].
Qed.

Lemma fold_addModifier_selected item opts : forall p,
  fold_left (addModifier item) (filter (selects item) opts) p
  = fold_left (addModifier item) opts p.
Proof.
  induction opts as [|e opts IH]; intros p; [reflexivity|].
  cbn [filter fold_left]. destruct (selects item e) eqn:E.
  - cbn [fold_left]. apply IH.
  - now rewrite (addModifier_unselected item p e E).
Qed.

(** X24: the selected entries that name no choice of the item -- a group
    the item does not have, or a choice its group does not have -- never
    change the unit price: the price is that of the remaining entries
    alone, in their order; when no entry names a choice of the item, and in
    particular when the item has no option groups, the price is the base
    price. *)
Theorem getPriceWithOptions_ignores_unknown (item : MenuItem.t)
    (selectedOpts : list (string * string)) :
  getPriceWithOptions item (filter (selects item) selectedOpts)
  = getPriceWithOptions item selectedOpts
  /\ (Forall (fun e => selects item e = false) selectedOpts ->
      getPriceWithOptions item selectedOpts = MenuItem.price item)
  /\ (MenuItem.options item = [] ->
      getPriceWithOptions item selectedOpts = MenuItem.price item).
Proof.
  unfold getPriceWithOptions.
  assert (Hnone : Forall (fun e => selects item e = false) selectedOpts ->
                  fold_left (addModifier item) selectedOpts (MenuItem.price item)
                  = MenuItem.price item).
  { generalize (MenuItem.price item). induction selectedOpts as [|e l IH];
      intros p H; [reflexivity|].
    inversion H; subst. cbn [fold_left].
    rewrite (addModifier_unselected item p e) by assumption. now apply IH. }
  split; [apply fold_addModifier_selected|]. split; [exact Hnone|].
  intros Hnil. apply Hnone. apply Forall_forall. intros e _.
  unfold selects. now rewrite Hnil.
Qed.

Lemma getPriceWithOptions_ignores_unknown_witness :
  let ramen := MenuItem.mk "item-0" "Noodles" "Ramen" 90 None "" false
                 [MenuOption.mk "Size" [MenuChoice.mk "S" 0; MenuChoice.mk "L" 20]] in
  getPriceWithOptions ramen [("Sauce", "Hot"); ("Size", "XL")] = 90%Z
  /\ getPriceWithOptions (setOptions ramen []) [("Size", "L")] = 90%Z.
Proof.
  intros ramen. split.
  - apply (proj1 (proj2 (getPriceWithOptions_ignores_unknown ramen _))).
    repeat constructor.
  - apply (proj2 (proj2 (getPriceWithOptions_ignores_unknown
                           (setOptions ramen []) _))).
    reflexivity.
Defined.

(** ** Item names, conditionally non-empty *)

(** X25: the names of the items of a result are pairwise different, each
    is the trimmed name cell of an item row of the workbook, and none is
    empty when no item row has a name cell made of white space only. *)
Theorem item_names_of_result (wb : Workbook) :
  NoDup (map MenuItem.name (MenuData.items (menuData (processWorkbook wb))))
  /\ (forall it,
        In it (MenuData.items (menuData (processWorkbook wb))) ->
        exists row,
          In row (allRows wb) /\ itemRow row
          /\ MenuItem.name it = name (resolve row))
  /\ ((forall row, In row (allRows wb) -> itemRow row ->
         name (resolve row) <> "") ->
      forall it,
        In it (MenuData.items (menuData (processWorkbook wb))) ->
        MenuItem.name it <> "").
Proof.
  split; [apply items_names_unique|]. split.
  - intros it. apply items_names_from_rows.
  - intros Hrows it Hin.
    destruct (items_names_from_rows wb it Hin) as [row [Hr [Hitem ->]]].
    now apply Hrows.
Qed.

Lemma item_names_of_result_witness :
  let wb := [ mkSheet [[VStr "Name"; VStr "Price"]; []]
                (fun _ => [ [("Name", VStr " Ramen "); ("Price", VNum 90)];
                            [("Name", VStr "Ramen"); ("Price", VNum 95)] ]) ] in
  Forall (fun it => MenuItem.name it <> "")
    (MenuData.items (menuData (processWorkbook wb))).
Proof.
  intros wb. apply Forall_forall.
  apply (proj2 (proj2 (item_names_of_result wb))).
  intros row Hin _. vm_compute in Hin.
  destruct Hin as [<-|[<-|[]]]; vm_compute; discriminate.
Defined.
